(** * xconfigdotenv: the .env decoder of dv-net/xconfig

    A shallow embedding of [decoders/xconfigdotenv/dotenv.go]: the
    reflection walk of [assignValue], the scalar coercion of
    [setBasicValue], the container helpers and the key loop of
    [Unmarshal], followed by the properties of the decoder. *)

From Stdlib Require Import ZArith Ascii String List Lia Bool SpecFloat.
From stdpp Require Import base option list strings gmap fin_maps.

Local Open Scope string_scope.
Local Open Scope Z_scope.

(** ** Strings ([strings] package of the Go library)

    Go strings are byte sequences, as [string] is here. *)

Module Strings.

(** [strings.ToLower] on one byte: [A]..[Z] go to [a]..[z].  Bytes
    outside ASCII are kept (Go lower-cases the non-ASCII letters of
    a UTF-8 string as well; identifiers and keys are taken in ASCII). *)
Definition lowerByte (c : ascii) : ascii :=
  let n := N_of_ascii c in
  if ((65 <=? n) && (n <=? 90))%N then ascii_of_N (n + 32) else c.

Fixpoint ToLower (s : string) : string :=
  match s with
  | EmptyString => EmptyString
  | String c r => String (lowerByte c) (ToLower r)
  end.

(** [strings.ReplaceAll(s, "_", "")]: every underscore is deleted. *)
Fixpoint dropUnderscores (s : string) : string :=
  match s with
  | EmptyString => EmptyString
  | String c r =>
      if Ascii.eqb c "_" then dropUnderscores r
      else String c (dropUnderscores r)
  end.

(** [strings.Join(elems, sep)]. *)
Fixpoint Join (elems : list string) (sep : string) : string :=
  match elems with
  | [] => ""
  | [x] => x
  | x :: rest => x ++ sep ++ Join rest sep
  end.

(** [strings.Split(s, "_")]: the fields between the underscores; the
    result always has at least one element. *)
Fixpoint splitAcc (s : string) (cur : string) : list string :=
  match s with
  | EmptyString => [cur]
  | String c r =>
      if Ascii.eqb c "_" then cur :: splitAcc r ""
      else splitAcc r (cur ++ String c "")
  end.

Definition Split (s : string) : list string := splitAcc s "".

End Strings.

(** [normalize]: lower-case, then delete every underscore. *)
Definition normalize (s : string) : string :=
  let s := Strings.ToLower s in
  Strings.dropUnderscores s.

(** ** Types and values as [reflect] shows them *)

(** [reflect.Kind]. *)
Module reflect.

Inductive Kind : Set :=
| Invalid | Bool | Int | Int8 | Int16 | Int32 | Int64
| Uint | Uint8 | Uint16 | Uint32 | Uint64 | Uintptr
| Float32 | Float64 | Complex64 | Complex128
| Array | Chan | Func | Interface | Map | Pointer | Slice
| String | Struct | UnsafePointer.

#[global] Instance Kind_eq_dec : EqDecision Kind.
Proof. solve_decision. Defined.

End reflect.

Abbreviation Kind := reflect.Kind.

#[local] Set Warnings "-register-all".

(** A Go type: its package path and name ([Type.Name] is empty for an
    unnamed type) and what [reflect] tells of its structure.  Types are
    finite trees here: a record type that contains itself through a
    pointer is not represented. *)
Inductive type : Type :=
| TBasic (pkg name : string) (k : Kind)
| TPtr (name : string) (elem : type)
| TStruct (name : string) (fields : list field)
| TMap (name : string) (key elem : type)
| TSlice (name : string) (elem : type)
| TInterface (name : string) (numMethod : nat)
| TOther (name : string) (k : Kind)
with field : Type :=
| StructField (fname : string) (ftype : type).

(** A value, as a tree: a pointer owns its pointee, a slice its
    elements and a map its entries, which is the shape of every value
    reached from a freshly zeroed destination. *)
Inductive value : Type :=
| VBool (b : bool)
| VInt (n : Z)
| VUint (n : Z)
| VFloat (f : spec_float)
| VComplex (re im : spec_float)
| VString (s : string)
| VPtr (p : option value)
| VStruct (fs : list value)
| VMap (m : option (gmap string value))
| VSlice (s : option (list value))
| VIface (dyn : option value)
| VOpaque.

(** [Type.Name], [Type.Kind] and [Type.Bits] (on a 64-bit platform). *)
Definition Name (t : type) : string :=
  match t with
  | TBasic _ n _ | TPtr n _ | TStruct n _ | TMap n _ _ | TSlice n _
  | TInterface n _ | TOther n _ => n
  end.

Definition kindOf (t : type) : Kind :=
  match t with
  | TBasic _ _ k => k
  | TPtr _ _ => reflect.Pointer
  | TStruct _ _ => reflect.Struct
  | TMap _ _ _ => reflect.Map
  | TSlice _ _ => reflect.Slice
  | TInterface _ _ => reflect.Interface
  | TOther _ k => k
  end.

Definition Bits (k : Kind) : Z :=
  match k with
  | reflect.Int8 | reflect.Uint8 => 8
  | reflect.Int16 | reflect.Uint16 => 16
  | reflect.Int32 | reflect.Uint32 | reflect.Float32 => 32
  | reflect.Complex128 => 128
  | _ => 64
  end.

Definition fname (f : field) : string := let 'StructField n _ := f in n.
Definition ftype (f : field) : type := let 'StructField _ t := f in t.

(** [time.Duration]: the type whose identity [setBasicValue] tests. *)
Definition DurationT : type := TBasic "time" "Duration" reflect.Int64.

Definition isDuration (t : type) : bool :=
  match t with
  | TBasic pkg n k =>
      String.eqb pkg "time" && String.eqb n "Duration"
      && bool_decide (k = reflect.Int64)
  | _ => false
  end.

(** The zero value of a type ([reflect.Zero], [reflect.New(t).Elem()]). *)
Fixpoint zero (t : type) : value :=
  match t with
  | TBasic _ _ k =>
      match k with
      | reflect.Bool => VBool false
      | reflect.Int | reflect.Int8 | reflect.Int16 | reflect.Int32
      | reflect.Int64 => VInt 0
      | reflect.Uint | reflect.Uint8 | reflect.Uint16 | reflect.Uint32
      | reflect.Uint64 | reflect.Uintptr => VUint 0
      | reflect.Float32 | reflect.Float64 => VFloat (S754_zero false)
      | reflect.Complex64 | reflect.Complex128 =>
          VComplex (S754_zero false) (S754_zero false)
      | reflect.String => VString ""
      | _ => VOpaque
      end
  | TPtr _ _ => VPtr None
  | TStruct _ fields => VStruct (map (fun f => zero (ftype f)) fields)
  | TMap _ _ _ => VMap None
  | TSlice _ _ => VSlice None
  | TInterface _ _ => VIface None
  | TOther _ _ => VOpaque
  end.

(** ** Errors and outcomes *)

(** The error values of the decoder and of the library calls it wraps.
    Each constructor of the decoder stands for one [fmt.Errorf] of the
    source; [Error] below gives the text. *)
Inductive error : Type :=
(* strconv.NumError: function, input, and syntax or range *)
| ErrNum (fn num : string) (range : bool)
(* time.ParseDuration *)
| ErrInvalidDuration (orig : string)
| ErrMissingUnit (orig : string)
| ErrUnknownUnit (u orig : string)
(* an error of a library call that is taken as given *)
| ErrExternal (msg : string)
(* setBasicValue *)
| ErrCannotParse (rawVal what : string) (cause : error)
| ErrUnsupportedKind (k : Kind) (rawVal : string)
(* setWithReflect *)
| ErrNotAddressable (k : Kind)
(* setMapValue *)
| ErrMapKeyType (k : Kind)
| ErrMapUnexported (mapKey : string)
(* assignValue *)
| ErrDescendPointer (fieldName : string) (k : Kind) (leftover : list string)
| ErrMapNoKey (fieldName : string)
| ErrSliceIndex (idxStr fieldName : string)
| ErrSliceElem (k : Kind) (fieldName : string)
| ErrDescend (fieldName : string) (k : Kind) (leftover : list string)
(* Unmarshal *)
| ErrNotPointer (goType : string)
| ErrNotStruct (k : Kind)
| ErrKey (rawKey : string) (cause : error).

(** How a call ends: with a nil error, with an error value, or in a
    run-time panic of [reflect].  [OutOfFuel] is not an outcome of the
    program: it marks the end of the recursion bound of the embedding,
    which [assignValue] never reaches. *)
Inductive status : Type :=
| Nil
| Failed (e : error)
| Panic (what : string)
| OutOfFuel.

(** [Kind.String]. *)
Definition kindString (k : Kind) : string :=
  match k with
  | reflect.Invalid => "invalid" | reflect.Bool => "bool"
  | reflect.Int => "int" | reflect.Int8 => "int8" | reflect.Int16 => "int16" | reflect.Int32 => "int32"
  | reflect.Int64 => "int64"
  | reflect.Uint => "uint" | reflect.Uint8 => "uint8" | reflect.Uint16 => "uint16"
  | reflect.Uint32 => "uint32" | reflect.Uint64 => "uint64" | reflect.Uintptr => "uintptr"
  | reflect.Float32 => "float32" | reflect.Float64 => "float64"
  | reflect.Complex64 => "complex64" | reflect.Complex128 => "complex128"
  | reflect.Array => "array" | reflect.Chan => "chan" | reflect.Func => "func"
  | reflect.Interface => "interface" | reflect.Map => "map" | reflect.Pointer => "ptr"
  | reflect.Slice => "slice" | reflect.String => "string" | reflect.Struct => "struct"
  | reflect.UnsafePointer => "unsafe.Pointer"
  end.

(** ** Number parsing ([strconv] package of the Go library)

    The library is not part of the repository; the calls the decoder
    makes are written out after the library, in base 10 and for a
    64-bit [int]. *)

Module Strconv.

Definition isDigit (c : ascii) : bool :=
  let n := N_of_ascii c in ((48 <=? n) && (n <=? 57))%N.

Definition digitVal (c : ascii) : Z := Z.of_N (N_of_ascii c) - 48.

Definition maxUint64 : Z := 2 ^ 64 - 1.

(** The digit loop of [ParseUint] in base 10: [None] is a syntax
    error, [Some None] a range error. *)
Fixpoint uintLoop (s : string) (maxVal n : Z) : option (option Z) :=
  match s with
  | EmptyString => Some (Some n)
  | String c r =>
      if negb (isDigit c) then None
      else if n >=? maxUint64 / 10 + 1 then Some None
      else
        let n1 := n * 10 + digitVal c in
        if (n1 >? maxUint64) || (n1 >? maxVal) then Some None
        else uintLoop r maxVal n1
  end.

(** [strconv.ParseUint(s, 10, bitSize)]. *)
Definition ParseUint (s : string) (bitSize : Z) : error + Z :=
  if String.eqb s "" then inl (ErrNum "ParseUint" s false)
  else
    let bitSize := if bitSize =? 0 then 64 else bitSize in
    match uintLoop s (2 ^ bitSize - 1) 0 with
    | None => inl (ErrNum "ParseUint" s false)
    | Some None => inl (ErrNum "ParseUint" s true)
    | Some (Some n) => inr n
    end.

(** [strconv.ParseInt(s, 10, bitSize)]. *)
Definition ParseInt (s : string) (bitSize : Z) : error + Z :=
  match s with
  | EmptyString => inl (ErrNum "ParseInt" s false)
  | String c r =>
      let neg := Ascii.eqb c "-" in
      let body := if Ascii.eqb c "+" || neg then r else s in
      let bitSize := if bitSize =? 0 then 64 else bitSize in
      let cutoff := 2 ^ (bitSize - 1) in
      match ParseUint body bitSize with
      | inl (ErrNum _ _ false) => inl (ErrNum "ParseInt" s false)
      | inl _ => inl (ErrNum "ParseInt" s true)
      | inr un =>
          if negb neg && (un >=? cutoff) then inl (ErrNum "ParseInt" s true)
          else if neg && (un >? cutoff) then inl (ErrNum "ParseInt" s true)
          else inr (if neg then - un else un)
      end
  end.

(** [strconv.Atoi]: [ParseInt(s, 10, 0)] with the function name of
    the error replaced. *)
Definition Atoi (s : string) : error + Z :=
  match ParseInt s 0 with
  | inl (ErrNum _ num range) => inl (ErrNum "Atoi" num range)
  | r => r
  end.

(** [strconv.ParseBool]. *)
Definition ParseBool (str : string) : error + bool :=
  if existsb (String.eqb str) ["1"; "t"; "T"; "true"; "TRUE"; "True"]
  then inr true
  else if existsb (String.eqb str) ["0"; "f"; "F"; "false"; "FALSE"; "False"]
  then inr false
  else inl (ErrNum "ParseBool" str false).

End Strconv.

(** ** Durations ([time] package of the Go library)

    The library is not part of the repository; its parser is written
    out here after the grammar the specification names. *)

Module Time.

Definition Nanosecond : Z := 1.
Definition Microsecond : Z := 1000 * Nanosecond.
Definition Millisecond : Z := 1000 * Microsecond.
Definition Second : Z := 1000 * Millisecond.
Definition Minute : Z := 60 * Second.
Definition Hour : Z := 60 * Minute.

(** The two spellings of the micro sign, as UTF-8. *)
Definition microSign : string :=
  String (ascii_of_nat 194) (String (ascii_of_nat 181) "s").
Definition greekMu : string :=
  String (ascii_of_nat 206) (String (ascii_of_nat 188) "s").

Definition unitMap (u : string) : option Z :=
  if String.eqb u "ns" then Some Nanosecond
  else if String.eqb u "us" then Some Microsecond
  else if String.eqb u microSign then Some Microsecond
  else if String.eqb u greekMu then Some Microsecond
  else if String.eqb u "ms" then Some Millisecond
  else if String.eqb u "s" then Some Second
  else if String.eqb u "m" then Some Minute
  else if String.eqb u "h" then Some Hour
  else None.

(** [leadingInt]: the leading decimal digits of [s] and the rest;
    [None] when they overflow. *)
Fixpoint leadingInt (s : string) (x : Z) : option (Z * string) :=
  match s with
  | String c r =>
      if Strconv.isDigit c then
        if x >? 2 ^ 63 / 10 then None
        else
          let x := x * 10 + Strconv.digitVal c in
          if x >? 2 ^ 63 then None else leadingInt r x
      else Some (x, s)
  | EmptyString => Some (x, s)
  end.

(** [leadingFraction]: the digits after the point, the power of ten
    they are scaled by, and the rest; digits past the overflow are
    skipped. *)
Fixpoint leadingFraction (s : string) (x scale : Z) (overflow : bool)
  : Z * Z * string :=
  match s with
  | String c r =>
      if Strconv.isDigit c then
        if overflow then leadingFraction r x scale true
        else if x >? (2 ^ 63 - 1) / 10 then leadingFraction r x scale true
        else
          let y := x * 10 + Strconv.digitVal c in
          if y >? 2 ^ 63 then leadingFraction r x scale true
          else leadingFraction r y (scale * 10) false
      else (x, scale, s)
  | EmptyString => (x, scale, s)
  end.

(** The unit: the bytes up to the next digit or point. *)
Fixpoint unitSpan (s : string) : string * string :=
  match s with
  | String c r =>
      if Ascii.eqb c "." || Strconv.isDigit c then ("", s)
      else let '(u, rest) := unitSpan r in (String c u, rest)
  | EmptyString => ("", s)
  end.

Section ParseDuration.

(** [uint64(float64(f) * (float64(unit) / scale))], the nanoseconds
    of a fractional part, which Go computes in floating point. *)
Variable fracNanos : Z -> Z -> Z -> Z.

(** The loop [for s != ""] of [ParseDuration]: one magnitude and
    unit per turn, each turn consuming at least the unit. *)
Fixpoint terms (fuel : nat) (orig s : string) (d : Z) : error + Z :=
  match fuel, s with
  | _, EmptyString => inr d
  | O, _ => inr d
  | S fuel, String c _ =>
      if negb (Ascii.eqb c "." || Strconv.isDigit c)
      then inl (ErrInvalidDuration orig)
      else
        match leadingInt s 0 with
        | None => inl (ErrInvalidDuration orig)
        | Some (v, s1) =>
            let pre := negb (String.length s =? String.length s1)%nat in
            let '(f, scale, s2, post) :=
              match s1 with
              | String "." r =>
                  let '(f, scale, s2) := leadingFraction r 0 1 false in
                  (f, scale, s2,
                   negb (String.length r =? String.length s2)%nat)
              | _ => (0, 1, s1, false)
              end in
            if negb pre && negb post then inl (ErrInvalidDuration orig)
            else
              let '(u, s3) := unitSpan s2 in
              if String.eqb u "" then inl (ErrMissingUnit orig)
              else
                match unitMap u with
                | None => inl (ErrUnknownUnit u orig)
                | Some unit =>
                    if v >? 2 ^ 63 / unit
                    then inl (ErrInvalidDuration orig)
                    else
                      let v := v * unit in
                      let v' :=
                        if f >? 0
                        then (v + fracNanos f unit scale) mod 2 ^ 64
                        else v in
                      if (f >? 0) && (v' >? 2 ^ 63)
                      then inl (ErrInvalidDuration orig)
                      else
                        let d := (d + v') mod 2 ^ 64 in
                        if d >? 2 ^ 63 then inl (ErrInvalidDuration orig)
                        else terms fuel orig s3 d
                end
        end
  end.

(** Modelled from the spec: [time.ParseDuration], which belongs to the
    Go library and is not under src/.  It is the duration grammar of
    the scalar coercer (a magnitude, integer or with a fraction, and a
    unit suffix, as in [5s] and [2h30m]; malformed input fails), in the
    way the Go library reads it: an optional sign, then one or more
    terms of a decimal magnitude and a unit; the result is in
    nanoseconds. *)
Definition ParseDuration (orig : string) : error + Z :=
  let '(neg, s) :=
    match orig with
    | String c r =>
        if Ascii.eqb c "-" || Ascii.eqb c "+"
        then (Ascii.eqb c "-", r) else (false, orig)
    | EmptyString => (false, orig)
    end in
  if String.eqb s "0" then inr 0
  else if String.eqb s "" then inl (ErrInvalidDuration orig)
  else
    match terms (String.length s) orig s 0 with
    | inl e => inl e
    | inr d =>
        if neg then inr (- d)
        else if d >? 2 ^ 63 - 1 then inl (ErrInvalidDuration orig)
        else inr d
    end.

End ParseDuration.

End Time.

(** ** What the decoder takes from outside

    The library calls whose results are taken as given: the quoting of
    [%q], the floating-point parsers, the floating-point step of
    [time.ParseDuration], and the .env parser of [godotenv]. *)
Record Runtime : Type := {
  quote : string -> string;
  ParseFloat : string -> Z -> error + spec_float;
  ParseComplex : string -> Z -> error + spec_float * spec_float;
  fracNanos : Z -> Z -> Z -> Z;
  UnmarshalBytes : string -> error + gmap string string
}.

(** The destination [v any] of [Unmarshal]: nil, a pointer (nil or
    not) to a value of some type, or anything else. *)
Inductive any : Type :=
| AnyNil
| AnyPtr (goType : string) (elemT : type) (p : option value)
| AnyOther (goType : string).

(** The [for] loops of [assignValue]: a body that returns ends the
    loop ([Some]), one that continues gives [None]. *)
Fixpoint forFields {A} (fields : list field) (i : nat)
    (body : nat -> field -> option A) : option A :=
  match fields with
  | [] => None
  | f :: rest =>
      match body i f with
      | Some r => Some r
      | None => forFields rest (S i) body
      end
  end.

Fixpoint forPrefixLen {A} (prefixLen : nat) (body : nat -> option A)
    : option A :=
  match prefixLen with
  | O => None
  | S k =>
      match body prefixLen with
      | Some r => Some r
      | None => forPrefixLen k body
      end
  end.

(** The test of the field loop: a field is passed over when neither
    its normalized name nor the normalized name of its type is the
    normalized prefix. *)
Definition skipField (fld : field) (normalizedPrefix : string) : bool :=
  let fieldNameNorm := normalize (fname fld) in
  let fieldTypeNameNorm := normalize (Name (ftype fld)) in
  negb (String.eqb fieldNameNorm normalizedPrefix)
  && negb (String.eqb fieldTypeNameNorm normalizedPrefix).

(** The prefix of [prefixLen] segments, joined and normalized. *)
Definition normalizedPrefix (parts : list string) (prefixLen : nat) : string :=
  let prefixJoined := Strings.Join (take prefixLen parts) "_" in
  normalize prefixJoined.

(** The field loop with its body left out: the index and the field at
    which the loop over the fields stops for a normalized prefix. *)
Definition resolveField (fields : list field) (candidate : string)
    : option (nat * field) :=
  forFields fields 0 (fun i fld =>
    if skipField fld candidate then None else Some (i, fld)).

(** The two loops with the body left out: the prefix length, the index
    and the field at which the search of [assignValue] stops. *)
Definition firstMatch (fields : list field) (parts : list string)
    : option (nat * nat * field) :=
  forPrefixLen (length parts) (fun prefixLen =>
    forFields fields 0 (fun i fld =>
      if skipField fld (normalizedPrefix parts prefixLen) then None
      else Some (prefixLen, i, fld))).

Definition IsNil (v : value) : bool :=
  match v with
  | VPtr None | VMap None | VSlice None | VIface None => true
  | _ => false
  end.

(** [structVal.Field(i)] and the write through it. *)
Definition Field (structVal : value) (i : nat) : value :=
  match structVal with
  | VStruct fs => default VOpaque (fs !! i)
  | _ => VOpaque
  end.

Definition withField (structVal : value) (i : nat) (fv : value) : value :=
  match structVal with
  | VStruct fs => VStruct (<[i := fv]> fs)
  | _ => structVal
  end.

(** The predeclared [string], the one type [reflect.ValueOf(mapKey)]
    is assignable to among the types of kind [String]. *)
Definition isStringType (t : type) : bool :=
  match t with
  | TBasic pkg n k =>
      String.eqb pkg "" && String.eqb n "string"
      && bool_decide (k = reflect.String)
  | _ => false
  end.

(** ** The decoder *)

(** The early return on a non-nil error: the rest runs on the content
    left by a step that ended with a nil error. *)
Definition andThen (r : value * status) (k : value -> value * status)
    : value * status :=
  match r with
  | (v, Nil) => k v
  | _ => r
  end.

Notation "'do' x <- e ; k" := (andThen e (fun x => k))
  (at level 10, x name, e at level 100, k at level 200).

(** The new content of an inner place, put back into the place that
    holds it; the status is passed on. *)
Definition into (wrap : value -> value) (r : value * status)
    : value * status :=
  (wrap r.1, r.2).

(** The elements of a slice value (none for a nil slice). *)
Definition elemsOf (v : value) : list value :=
  match v with
  | VSlice (Some l) => l
  | _ => []
  end.

Section Decoder.

Variable rt : Runtime.

(** A [reflect.Value] is followed as its type, its current content
    and whether it is addressable ([addr]); the functions return the
    new content of the place they were given.  A settable value is
    addressable, so [CanSet() || CanAddr()] is [addr]. *)

(** [setWithReflect]: [cv] goes into [fieldVal]. *)
Definition setWithReflect (addr : bool) (k : Kind) (fieldVal cv : value)
    : value * status :=
  if addr then (cv, Nil)
  else (fieldVal, Failed (ErrNotAddressable k)).

(** [if fieldVal.IsNil() { setWithReflect(fieldVal, fresh) }]: the
    lazy allocation of a pointee, a map or a slice. *)
Definition initIfNil (addr : bool) (k : Kind) (fieldVal fresh : value)
    : value * status :=
  if IsNil fieldVal then setWithReflect addr k fieldVal fresh
  else (fieldVal, Nil).

(** [setBasicValue]. *)
Fixpoint setBasicValue (addr : bool) (ft : type) (fieldVal : value)
    (rawVal : string) : value * status :=
  if isDuration ft then
    match Time.ParseDuration (fracNanos rt) rawVal with
    | inl err => (fieldVal, Failed (ErrCannotParse rawVal "Duration" err))
    | inr dur => setWithReflect addr (kindOf ft) fieldVal (VInt dur)
    end
  else
    let kind := kindOf ft in
    match kind with
    | reflect.String => setWithReflect addr kind fieldVal (VString rawVal)
    | reflect.Bool =>
        match Strconv.ParseBool rawVal with
        | inl err => (fieldVal, Failed (ErrCannotParse rawVal "bool" err))
        | inr b => setWithReflect addr kind fieldVal (VBool b)
        end
    | reflect.Int | reflect.Int8 | reflect.Int16 | reflect.Int32
    | reflect.Int64 =>
        match Strconv.ParseInt rawVal (Bits kind) with
        | inl err => (fieldVal, Failed (ErrCannotParse rawVal "int" err))
        | inr i => setWithReflect addr kind fieldVal (VInt i)
        end
    | reflect.Uint | reflect.Uint8 | reflect.Uint16 | reflect.Uint32
    | reflect.Uint64 =>
        match Strconv.ParseUint rawVal (Bits kind) with
        | inl err => (fieldVal, Failed (ErrCannotParse rawVal "uint" err))
        | inr u => setWithReflect addr kind fieldVal (VUint u)
        end
    | reflect.Float32 | reflect.Float64 =>
        match ParseFloat rt rawVal (Bits kind) with
        | inl err => (fieldVal, Failed (ErrCannotParse rawVal "float" err))
        | inr f => setWithReflect addr kind fieldVal (VFloat f)
        end
    | reflect.Complex64 | reflect.Complex128 =>
        match ParseComplex rt rawVal (Bits kind) with
        | inl err => (fieldVal, Failed (ErrCannotParse rawVal "complex" err))
        | inr (re, im) => setWithReflect addr kind fieldVal (VComplex re im)
        end
    | reflect.Pointer =>
        match ft with
        | TPtr _ elemT =>
            do fieldVal <-
              initIfNil addr kind fieldVal (VPtr (Some (zero elemT)));
            match fieldVal with
            | VPtr (Some elem) =>
                into (fun e => VPtr (Some e))
                  (setBasicValue true elemT elem rawVal)
            | _ => (fieldVal, Panic "reflect: call of Type on zero Value")
            end
        | _ => (fieldVal, Panic "reflect: Elem of invalid type")
        end
    | _ => (fieldVal, Failed (ErrUnsupportedKind kind rawVal))
    end.

(** The value stored by [setMapValue]: the raw string under a value
    type that is an interface without methods, the scalar coercion into
    a fresh value of the value type otherwise. *)
Definition mapElem (valType : type) (rawVal : string) : value * status :=
  match valType with
  | TInterface _ O => (VIface (Some (VString rawVal)), Nil)
  | _ => setBasicValue true valType (zero valType) rawVal
  end.

(** [setMapValue].  [SetMapIndex] panics on a nil map and on a key
    type to which a [string] is not assignable. *)
Definition setMapValue (addr : bool) (mt : type) (mapVal : value)
    (mapKey rawVal : string) : value * status :=
  match mt with
  | TMap _ keyType valType =>
      if negb (bool_decide (kindOf keyType = reflect.String))
      then (mapVal, Failed (ErrMapKeyType (kindOf keyType)))
      else
        match mapElem valType rawVal with
        | (cv, Nil) =>
            if addr then
              match mapVal with
              | VMap (Some m) =>
                  if isStringType keyType
                  then (VMap (Some (<[mapKey := cv]> m)), Nil)
                  else (mapVal,
                        Panic "reflect.Value.SetMapIndex: value of type string is not assignable")
              | _ => (mapVal, Panic "assignment to entry in nil map")
              end
            else (mapVal, Failed (ErrMapUnexported mapKey))
        | (_, st) => (mapVal, st)
        end
  | _ => (mapVal, Panic "reflect: Key of non-map type")
  end.

(** The recursive call of [assignValue], on a record reached from the
    field. *)
Definition descent : Type :=
  bool -> type -> value -> list string -> string -> value * status.

(** The growth of the slice case: with the index at or past the
    length, a new slice of [ix + 1] elements takes the old elements
    at their places and replaces the old slice. *)
Definition growSlice (addr : bool) (elemT : type) (fieldVal : value)
    (ix : Z) : value * status :=
  let elems := elemsOf fieldVal in
  let curLen := Z.of_nat (length elems) in
  if ix >=? curLen then
    let newLen := ix + 1 in
    let newSlice :=
      (elems ++ replicate (Z.to_nat (newLen - curLen)) (zero elemT))%list in
    setWithReflect addr reflect.Slice fieldVal (VSlice (Some newSlice))
  else (fieldVal, Nil).

(** The end of the slice case, on the element [elemVal] at the
    index: with segments after the index the element is entered (a
    pointer element is allocated first, and its pointee entered
    whatever its kind), without it is assigned. *)
Definition assignElem (assignValue : descent) (fld : field) (elemT : type)
    (elemVal : value) (rest : list string) (rawVal : string)
    : value * status :=
  match rest with
  | _ :: _ =>
      match elemT with
      | TPtr _ pointee =>
          let elemVal :=
            if IsNil elemVal then VPtr (Some (zero pointee)) else elemVal in
          match elemVal with
          | VPtr (Some e) =>
              into (fun e => VPtr (Some e))
                (assignValue true pointee e rest rawVal)
          | _ => (elemVal, Panic "reflect: call of Type on zero Value")
          end
      | TStruct _ _ => assignValue true elemT elemVal rest rawVal
      | _ => (elemVal, Failed (ErrSliceElem (kindOf elemT) (fname fld)))
      end
  | [] => setBasicValue true elemT elemVal rawVal
  end.

(** The body of the field loop of [assignValue] once a field matched:
    the leaf assignment or the step into the container.  [fieldVal]
    is the content of the field, [leftover] the segments after the
    prefix; the result is the new content of the field. *)
Definition assignField (assignValue : descent) (addr : bool)
    (fld : field) (fieldVal : value) (leftover : list string)
    (rawVal : string) : value * status :=
  let ft := ftype fld in
  match leftover with
  | [] => setBasicValue addr ft fieldVal rawVal
  | idxStr :: rest =>
      match ft with
      | TPtr _ elemT =>
          do fieldVal <-
            initIfNil addr reflect.Pointer fieldVal (VPtr (Some (zero elemT)));
          match fieldVal with
          | VPtr (Some elem) =>
              if bool_decide (kindOf elemT = reflect.Struct) then
                into (fun e => VPtr (Some e))
                  (assignValue true elemT elem leftover rawVal)
              else
                (fieldVal,
                 Failed (ErrDescendPointer (fname fld) (kindOf elemT) leftover))
          | _ => (fieldVal, Panic "reflect: call of Kind on zero Value")
          end
      | TStruct _ _ => assignValue addr ft fieldVal leftover rawVal
      | TMap _ _ _ =>
          (* len(leftover) == 0 is excluded by the test above *)
          do fieldVal <- initIfNil addr reflect.Map fieldVal (VMap (Some ∅));
          let mapKey := Strings.Join leftover "_" in
          setMapValue addr ft fieldVal mapKey rawVal
      | TSlice _ elemT =>
          match Strconv.Atoi idxStr with
          | inl _ => (fieldVal, Failed (ErrSliceIndex idxStr (fname fld)))
          | inr ix =>
              do fieldVal <-
                initIfNil addr reflect.Slice fieldVal (VSlice (Some []));
              do fieldVal <- growSlice addr elemT fieldVal ix;
              let elems := elemsOf fieldVal in
              if ix <? 0 then
                (fieldVal, Panic "reflect: slice index out of range")
              else
                match elems !! Z.to_nat ix with
                | None => (fieldVal, Panic "reflect: slice index out of range")
                | Some elemVal =>
                    into (fun e => VSlice (Some (<[Z.to_nat ix := e]> elems)))
                      (assignElem assignValue fld elemT elemVal rest rawVal)
                end
          end
      | _ => (fieldVal, Failed (ErrDescend (fname fld) (kindOf ft) leftover))
      end
  end.

(** [assignValue], with the bound [fuel] on the depth of the descent.
    On a value that is not a record [typ.NumField()] panics, at the
    first test of the field loop; with no segment the loops do not
    run. *)
Fixpoint assignValueN (fuel : nat) (addr : bool) (typ : type) (v : value)
    (parts : list string) (rawVal : string) : value * status :=
  match fuel with
  | O => (v, OutOfFuel)
  | S fuel =>
      match parts, typ with
      | [], _ => (v, Nil)
      | _, TStruct _ fields =>
          let found :=
            forPrefixLen (length parts) (fun prefixLen =>
              let normalizedPrefix := normalizedPrefix parts prefixLen in
              forFields fields 0 (fun i fld =>
                if skipField fld normalizedPrefix then None
                else
                  let fieldVal := Field v i in
                  let leftover := drop prefixLen parts in
                  Some (into (withField v i)
                          (assignField (assignValueN fuel) addr fld fieldVal
                             leftover rawVal)))) in
          match found with
          | Some r => r
          | None => (v, Nil)
          end
      | _, _ => (v, Panic "reflect: NumField of non-struct type")
      end
  end.

(** [assignValue]: every descent drops at least one segment, so the
    number of segments bounds the depth. *)
Definition assignValue (addr : bool) (typ : type) (v : value)
    (parts : list string) (rawVal : string) : value * status :=
  assignValueN (S (length parts)) addr typ v parts rawVal.

(** The loop of [Unmarshal] over the flat map, in the order [range]
    yields its entries. *)
Fixpoint rangeLoop (entries : list (string * string)) (typ : type)
    (elem : value) : value * status :=
  match entries with
  | [] => (elem, Nil)
  | (rawKey, rawVal) :: rest =>
      let parts := Strings.Split rawKey in
      if (length parts =? 0)%nat then rangeLoop rest typ elem
      else
        match assignValue true typ elem parts rawVal with
        | (elem, Nil) => rangeLoop rest typ elem
        | (elem, Failed err) => (elem, Failed (ErrKey rawKey err))
        | r => r
        end
  end.

(** [Decoder.Unmarshal].  [range] is the order in which the run
    iterates the flat map; Go leaves it open. *)
Definition Unmarshal (range : gmap string string -> list (string * string))
    (data : string) (v : any) : any * status :=
  match UnmarshalBytes rt data with
  | inl err => (v, Failed err)
  | inr flatMap =>
      match v with
      | AnyPtr goType elemT (Some elem) =>
          if negb (bool_decide (kindOf elemT = reflect.Struct))
          then (v, Failed (ErrNotStruct (kindOf elemT)))
          else
            let '(elem, st) := rangeLoop (range flatMap) elemT elem in
            (AnyPtr goType elemT (Some elem), st)
      | AnyPtr goType _ None => (v, Failed (ErrNotPointer goType))
      | AnyOther goType => (v, Failed (ErrNotPointer goType))
      | AnyNil => (v, Failed (ErrNotPointer "<nil>"))
      end
  end.

End Decoder.

(** An iteration order of the flat map: its entries, each once. *)
Definition rangeOrder (range : gmap string string -> list (string * string))
    : Prop :=
  forall m, range m ≡ₚ map_to_list m.

(** [matchAt fields parts prefixLen i fld]: field [i] is [fld], and its
    normalized name or type name is the normalized prefix of
    [prefixLen] segments. *)
Definition matchAt (fields : list field) (parts : list string)
    (prefixLen i : nat) (fld : field) : Prop :=
  (1 <= prefixLen <= length parts)%nat /\ fields !! i = Some fld
  /\ skipField fld (normalizedPrefix parts prefixLen) = false.

(** The resolver as the specification words it: the first field whose
    normalized name is the candidate and, only when no field has that
    name, the first field whose normalized type name is the candidate.
    It is compared with [resolveField], the loop of the source. *)
Definition resolveNameFirst (fields : list field) (candidate : string)
    : option (nat * field) :=
  match
    forFields fields 0 (fun i fld =>
      if String.eqb (normalize (fname fld)) candidate
      then Some (i, fld) else None)
  with
  | Some r => Some r
  | None =>
      forFields fields 0 (fun i fld =>
        if String.eqb (normalize (Name (ftype fld))) candidate
        then Some (i, fld) else None)
  end.

(** ** Sample records and a sample runtime

    The types of the examples, and library calls to run them with: no
    floating-point literal parses, the fraction of a duration is cut
    to whole nanoseconds, and the .env text is not looked at. *)
Definition stringT : type := TBasic "" "string" reflect.String.
Definition intT : type := TBasic "" "int" reflect.Int.

Definition doubleQuote : string := String (ascii_of_nat 34) "".

Definition sampleRuntime : Runtime := {|
  quote := fun s => doubleQuote ++ s ++ doubleQuote;
  ParseFloat := fun _ _ => inl (ErrExternal "strconv.ParseFloat");
  ParseComplex := fun _ _ => inl (ErrExternal "strconv.ParseComplex");
  fracNanos := fun f unit scale => f * unit / scale;
  UnmarshalBytes := fun _ => inr ∅
|}.

(** [type Host string; struct { Addr Host; Host string }]. *)
Definition hostAddrT : type :=
  TStruct "Endpoint"
    [StructField "Addr" (TBasic "main" "Host" reflect.String);
     StructField "Host" stringT].

(** ** Where a key lands *)

(** [landsOn fields parts i fld leftover]: on [parts] the search of
    [assignValue] stops at field [i], which is [fld], and leaves the
    segments [leftover] after the matched prefix. *)
Definition landsOn (fields : list field) (parts : list string)
    (i : nat) (fld : field) (leftover : list string) : Prop :=
  exists prefixLen,
    firstMatch fields parts = Some (prefixLen, i, fld)
    /\ drop prefixLen parts = leftover.

(** The field of the destination record a raw key is assigned under,
    if any. *)
Definition topField (fields : list field) (rawKey : string) : option nat :=
  (fun '(_, i, _) => i) <$> firstMatch fields (Strings.Split rawKey).



(** The types [setBasicValue] has a rule for: [time.Duration], the
    scalar kinds of its switch, and pointers to such types. *)
Definition scalarKind (k : Kind) : bool :=
  match k with
  | reflect.String | reflect.Bool
  | reflect.Int | reflect.Int8 | reflect.Int16 | reflect.Int32 | reflect.Int64
  | reflect.Uint | reflect.Uint8 | reflect.Uint16 | reflect.Uint32
  | reflect.Uint64
  | reflect.Float32 | reflect.Float64
  | reflect.Complex64 | reflect.Complex128 => true
  | _ => false
  end.

Fixpoint leafType (t : type) : bool :=
  isDuration t
  || match t with
     | TPtr _ elemT => leafType elemT
     | _ => scalarKind (kindOf t)
     end.

(** ** The text of the errors *)

(** [%v] of a [[]string]. *)
Definition formatList (l : list string) : string :=
  "[" ++ Strings.Join l " " ++ "]".

(** [error.Error()]: the format strings of the source, with [%q] left
    to the runtime.  The errors of [time] quote with a function of their
    own, which is taken to be the same. *)
Fixpoint Error (rt : Runtime) (e : error) : string :=
  match e with
  | ErrNum fn num range =>
      "strconv." ++ fn ++ ": parsing " ++ quote rt num ++ ": "
      ++ (if range then "value out of range" else "invalid syntax")
  | ErrInvalidDuration orig => "time: invalid duration " ++ quote rt orig
  | ErrMissingUnit orig => "time: missing unit in duration " ++ quote rt orig
  | ErrUnknownUnit u orig =>
      "time: unknown unit " ++ quote rt u ++ " in duration " ++ quote rt orig
  | ErrExternal msg => msg
  | ErrCannotParse rawVal what cause =>
      "cannot parse " ++ quote rt rawVal ++ " as " ++ what ++ ": "
      ++ Error rt cause
  | ErrUnsupportedKind k rawVal =>
      "unsupported kind " ++ kindString k ++ " for value " ++ quote rt rawVal
  | ErrNotAddressable k =>
      "cannot set field of kind " ++ kindString k ++ " (not addressable)"
  | ErrMapKeyType k =>
      "unsupported map key type " ++ kindString k
      ++ "; only string keys allowed"
  | ErrMapUnexported mapKey =>
      "cannot set map key " ++ quote rt mapKey ++ " on unexported field"
  | ErrDescendPointer fieldName k leftover =>
      "cannot descend into pointer field " ++ quote rt fieldName
      ++ " (kind " ++ kindString k ++ "), leftover " ++ formatList leftover
  | ErrMapNoKey fieldName =>
      "map field " ++ quote rt fieldName
      ++ " but no key given (leftover is empty)"
  | ErrSliceIndex idxStr fieldName =>
      "cannot parse slice index " ++ quote rt idxStr ++ " for field "
      ++ quote rt fieldName
  | ErrSliceElem k fieldName =>
      "cannot descend into slice element kind " ++ kindString k
      ++ " for field " ++ quote rt fieldName
  | ErrDescend fieldName k leftover =>
      "cannot descend into field " ++ quote rt fieldName
      ++ " (kind " ++ kindString k ++ "), leftover " ++ formatList leftover
  | ErrNotPointer goType =>
      "xconfigdotenv: Unmarshal: v must be a non-nil pointer to a struct, got "
      ++ goType
  | ErrNotStruct k =>
      "xconfigdotenv: Unmarshal: v must point to a struct, got pointer to "
      ++ kindString k
  | ErrKey rawKey cause =>
      "xconfigdotenv: Unmarshal: key " ++ quote rt rawKey ++ ": "
      ++ Error rt cause
  end.

(** ** More sample records *)

(** [struct { Host string; Port int }]. *)
Definition innerT : type :=
  TStruct "Inner" [StructField "Host" stringT; StructField "Port" intT].

(** [struct { Host string; Items []string; Tags map[string]string;
    DB *Inner; Timeout time.Duration; Nested Inner; Inners []Inner }]. *)
Definition configT : type :=
  TStruct "Config"
    [StructField "Host" stringT;
     StructField "Items" (TSlice "" stringT);
     StructField "Tags" (TMap "" stringT stringT);
     StructField "DB" (TPtr "" innerT);
     StructField "Timeout" DurationT;
     StructField "Nested" innerT;
     StructField "Inners" (TSlice "" innerT)].


(** The record a composite field is entered at, and the segments left
    for it: the field itself for a record, the pointee for a pointer,
    the element (or its pointee) after the index for a slice. *)
Definition entered (t : type) (leftover : list string)
    : option (type * list string) :=
  match t, leftover with
  | TStruct _ _, _ => Some (t, leftover)
  | TPtr _ elemT, _ => Some (elemT, leftover)
  | TSlice _ (TPtr _ pointee), _ :: rest => Some (pointee, rest)
  | TSlice _ elemT, _ :: rest => Some (elemT, rest)
  | _, _ => None
  end.

(** [unmatchedIn typ parts], the phrase of the specification: the key
    matches no field at any prefix length, at this level or, after a
    leading prefix that matches a composite field, inside that field. *)
Inductive unmatchedIn : type -> list string -> Prop :=
| unmatched_here name fields parts :
    firstMatch fields parts = None ->
    unmatchedIn (TStruct name fields) parts
| unmatched_inside name fields parts i fld leftover inner rest :
    landsOn fields parts i fld leftover ->
    leftover <> [] ->
    entered (ftype fld) leftover = Some (inner, rest) ->
    rest <> [] ->
    unmatchedIn inner rest ->
    unmatchedIn (TStruct name fields) parts.

(** A runtime whose .env parser yields the entries [HOST=h],
    [TAGS=v] and [PORT=1] whatever the text. *)
Definition threeKeysRuntime : Runtime := {|
  quote := quote sampleRuntime;
  ParseFloat := ParseFloat sampleRuntime;
  ParseComplex := ParseComplex sampleRuntime;
  fracNanos := fracNanos sampleRuntime;
  UnmarshalBytes := fun _ =>
    inr (<["HOST" := "h"]> (<["TAGS" := "v"]> (<["PORT" := "1"]> ∅)))
|}.


(** The types the switch of [assignValue] has a case for. *)
Definition isContainer (t : type) : bool :=
  match t with
  | TPtr _ _ | TStruct _ _ | TMap _ _ _ | TSlice _ _ => true
  | _ => false
  end.

(** * Properties *)

(** ** The loops *)

Lemma forFields_ext {A} (fields : list field) (i : nat)
    (b1 b2 : nat -> field -> option A) :
  (forall j fld, b1 j fld = b2 j fld) ->
  forFields fields i b1 = forFields fields i b2.
Proof.
  intros Hb. revert i.
  induction fields as [|f rest IH]; intros i; simpl; [done|].
  rewrite Hb. destruct (b2 i f); [done|apply IH].
Qed.

Lemma forPrefixLen_ext {A} (n : nat) (b1 b2 : nat -> option A) :
  (forall k, (1 <= k <= n)%nat -> b1 k = b2 k) ->
  forPrefixLen n b1 = forPrefixLen n b2.
Proof.
  induction n as [|n IH]; intros Hb; simpl; [done|].
  rewrite Hb by lia. destruct (b2 (S n)); [done|].
  apply IH. intros k Hk. apply Hb. lia.
Qed.

(** A loop whose body maps the result of another. *)
Lemma forFields_fmap {A B} (g : A -> B) (fields : list field) (i : nat)
    (b : nat -> field -> option A) :
  forFields fields i (fun j fld => g <$> b j fld)
  = g <$> forFields fields i b.
Proof.
  revert i. induction fields as [|f rest IH]; intros i; simpl; [done|].
  destruct (b i f); simpl; [done|apply IH].
Qed.

Lemma forPrefixLen_fmap {A B} (g : A -> B) (n : nat) (b : nat -> option A) :
  forPrefixLen n (fun k => g <$> b k) = g <$> forPrefixLen n b.
Proof.
  induction n as [|n IH]; simpl; [done|].
  destruct (b (S n)); simpl; [done|apply IH].
Qed.

(** Where the field loop stops: at the first field, from index [i] on,
    on which the body returns. *)
Lemma forFields_Some {A} (fields : list field) (i : nat)
    (b : nat -> field -> option A) (r : A) :
  forFields fields i b = Some r <->
  exists j fld, fields !! j = Some fld /\ b (i + j)%nat fld = Some r
    /\ forall j' fld', (j' < j)%nat -> fields !! j' = Some fld' ->
         b (i + j')%nat fld' = None.
Proof.
  revert i. induction fields as [|f rest IH]; intros i; simpl.
  - split; [done|]. intros (j & fld & Hj & _). by rewrite lookup_nil in Hj.
  - destruct (b i f) as [r'|] eqn:Hb.
    + split.
      * intros [= <-]. exists 0%nat, f. rewrite Nat.add_0_r.
        repeat split; [done|]. intros j' fld' Hlt. lia.
      * intros (j & fld & Hj & Hr & Hmin).
        destruct j as [|j].
        -- simpl in Hj. injection Hj as <-. rewrite Nat.add_0_r in Hr. congruence.
        -- specialize (Hmin 0%nat f ltac:(lia) eq_refl).
           rewrite Nat.add_0_r in Hmin. congruence.
    + rewrite IH. split.
      * intros (j & fld & Hj & Hr & Hmin). exists (S j), fld.
        replace (i + S j)%nat with (S i + j)%nat by lia.
        repeat split; [done..|].
        intros [|j'] fld' Hlt Hj'; simpl in Hj'.
        -- injection Hj' as <-. by rewrite Nat.add_0_r.
        -- replace (i + S j')%nat with (S i + j')%nat by lia.
           apply Hmin; [lia|done].
      * intros (j & fld & Hj & Hr & Hmin). destruct j as [|j].
        -- simpl in Hj. injection Hj as <-. rewrite Nat.add_0_r in Hr. congruence.
        -- exists j, fld. replace (S i + j)%nat with (i + S j)%nat by lia.
           repeat split; [done..|].
           intros j' fld' Hlt Hj'.
           replace (S i + j')%nat with (i + S j')%nat by lia.
           apply Hmin; [lia|done].
Qed.

Lemma forFields_None {A} (fields : list field) (i : nat)
    (b : nat -> field -> option A) :
  forFields fields i b = None <->
  forall j fld, fields !! j = Some fld -> b (i + j)%nat fld = None.
Proof.
  revert i. induction fields as [|f rest IH]; intros i; simpl.
  - split; [|done]. intros _ j fld Hj. by rewrite lookup_nil in Hj.
  - destruct (b i f) as [r'|] eqn:Hb.
    + split; [done|]. intros H. specialize (H 0%nat f eq_refl).
      rewrite Nat.add_0_r in H. congruence.
    + rewrite IH. split.
      * intros H [|j] fld Hj; simpl in Hj.
        -- injection Hj as <-. by rewrite Nat.add_0_r.
        -- replace (i + S j)%nat with (S i + j)%nat by lia. by apply H.
      * intros H j fld Hj.
        replace (S i + j)%nat with (i + S j)%nat by lia. by apply H.
Qed.

(** Where the prefix loop stops: at the longest length on which the
    body returns. *)
Lemma forPrefixLen_Some {A} (n : nat) (b : nat -> option A) (r : A) :
  forPrefixLen n b = Some r <->
  exists k, (1 <= k <= n)%nat /\ b k = Some r
    /\ forall k', (k < k' <= n)%nat -> b k' = None.
Proof.
  induction n as [|n IH]; simpl.
  - split; [done|]. intros (k & Hk & _). lia.
  - destruct (b (S n)) as [r'|] eqn:Hb.
    + split.
      * intros [= <-]. exists (S n). repeat split; [lia..|done|]. intros; lia.
      * intros (k & Hk & Hr & Hmax).
        destruct (decide (k = S n)) as [->|Hne]; [congruence|].
        rewrite Hmax in Hb by lia. done.
    + rewrite IH. split.
      * intros (k & Hk & Hr & Hmax). exists k. repeat split; [lia..|done|].
        intros k' Hk'. destruct (decide (k' = S n)) as [->|]; [done|].
        apply Hmax. lia.
      * intros (k & Hk & Hr & Hmax).
        destruct (decide (k = S n)) as [->|Hne]; [congruence|].
        exists k. repeat split; [lia..|done|]. intros k' Hk'. apply Hmax. lia.
Qed.

Lemma forPrefixLen_None {A} (n : nat) (b : nat -> option A) :
  forPrefixLen n b = None <-> forall k, (1 <= k <= n)%nat -> b k = None.
Proof.
  induction n as [|n IH]; simpl.
  - split; [|done]. intros _ k Hk. lia.
  - destruct (b (S n)) as [r'|] eqn:Hb.
    + split; [done|]. intros H. rewrite H in Hb by lia. done.
    + rewrite IH. split.
      * intros H k Hk. destruct (decide (k = S n)) as [->|]; [done|].
        apply H. lia.
      * intros H k Hk. apply H. lia.
Qed.

(** ** Steps and their status *)

Lemma andThen_ext (e : value * status) (k1 k2 : value -> value * status) :
  (forall v, k1 v = k2 v) -> andThen e k1 = andThen e k2.
Proof. intros H. destruct e as [v []]; simpl; auto. Qed.

Lemma andThen_Nil v k : andThen (v, Nil) k = k v.
Proof. done. Qed.

Lemma andThen_status (P : status -> Prop) e k :
  P e.2 -> (forall v, P (k v).2) -> P (andThen e k).2.
Proof. destruct e as [v []]; simpl; auto. Qed.

Lemma into_status wrap r : (into wrap r).2 = r.2.
Proof. done. Qed.

Lemma into_value wrap r : (into wrap r).1 = wrap r.1.
Proof. done. Qed.

Lemma into_ext wrap r1 r2 : r1 = r2 -> into wrap r1 = into wrap r2.
Proof. by intros ->. Qed.

(** ** The recursion bound *)

Section Fuel.

Variable rt : Runtime.

(** [assignElem] and [assignField] use their descent on segment
    lists no longer than the one they are given. *)
Lemma assignElem_ext (rec1 rec2 : descent) fld elemT elemVal rest rawVal :
  (forall a t v, rec1 a t v rest rawVal = rec2 a t v rest rawVal) ->
  assignElem rt rec1 fld elemT elemVal rest rawVal
  = assignElem rt rec2 fld elemT elemVal rest rawVal.
Proof.
  intros H. unfold assignElem. destruct rest as [|r rest]; [done|].
  destruct elemT; try done.
  destruct (if IsNil elemVal then _ else _) as [| | | | | |[e|]| | | | |];
    try done.
  by rewrite H.
Qed.

Lemma assignField_ext (rec1 rec2 : descent) addr fld fieldVal leftover rawVal :
  (forall a t v p, (length p <= length leftover)%nat ->
     rec1 a t v p rawVal = rec2 a t v p rawVal) ->
  assignField rt rec1 addr fld fieldVal leftover rawVal
  = assignField rt rec2 addr fld fieldVal leftover rawVal.
Proof.
  intros H. unfold assignField.
  destruct leftover as [|idxStr rest]; [done|].
  destruct (ftype fld) as [| | | |? elemT| |]; try done.
  - apply andThen_ext. intros [| | | | | |[e|]| | | | |]; try done.
    destruct (bool_decide _); [|done]. by rewrite H.
  - by apply H.
  - destruct (Strconv.Atoi idxStr); [done|].
    apply andThen_ext. intros v1. apply andThen_ext. intros v2. simpl.
    destruct (_ <? 0); [done|]. destruct (_ !! _); [|done].
    apply into_ext, assignElem_ext. intros. apply H. simpl. lia.
Qed.

Lemma assignValueN_fuel fuel1 : forall fuel2 addr typ v parts rawVal,
  (length parts < fuel1)%nat -> (length parts < fuel2)%nat ->
  assignValueN rt fuel1 addr typ v parts rawVal
  = assignValueN rt fuel2 addr typ v parts rawVal.
Proof.
  induction fuel1 as [|fuel1 IH]; intros fuel2 addr typ v parts rawVal H1 H2;
    [lia|].
  destruct fuel2 as [|fuel2]; [lia|]. simpl.
  destruct parts as [|p parts]; [done|].
  destruct typ; try done.
  erewrite forPrefixLen_ext; [reflexivity|]. intros k Hk.
  apply forFields_ext. intros j fld. destruct (skipField _ _); [done|].
  erewrite assignField_ext; [done|].
  intros a t v' q Hq. rewrite length_drop in Hq. simpl in *.
  apply IH; lia.
Qed.

(** The equation of [assignValue]: the search, then the body at the
    field found, with [assignValue] itself for the descent. *)
Lemma assignValue_unfold addr typ v parts rawVal :
  assignValue rt addr typ v parts rawVal =
  match parts, typ with
  | [], _ => (v, Nil)
  | _, TStruct _ fields =>
      match firstMatch fields parts with
      | Some (prefixLen, i, fld) =>
          into (withField v i)
            (assignField rt (assignValue rt) addr fld (Field v i)
               (drop prefixLen parts) rawVal)
      | None => (v, Nil)
      end
  | _, _ => (v, Panic "reflect: NumField of non-struct type")
  end.
Proof.
  unfold assignValue at 1. simpl.
  destruct parts as [|p parts]; [done|].
  destruct typ; try done.
  unfold firstMatch.
  set (body := fun '(prefixLen, i, fld) =>
    into (withField v i)
      (assignField rt (assignValue rt) addr fld (Field v i)
         (drop prefixLen (p :: parts)) rawVal)).
  transitivity
    (match body <$>
           forPrefixLen (length (p :: parts)) (fun prefixLen =>
             forFields fields 0 (fun i fld =>
               if skipField fld (normalizedPrefix (p :: parts) prefixLen)
               then None else Some (prefixLen, i, fld)))
     with Some r => r | None => (v, Nil) end).
  - rewrite <- forPrefixLen_fmap.
    erewrite forPrefixLen_ext; [reflexivity|]. intros k Hk. cbv beta.
    rewrite <- forFields_fmap. apply forFields_ext. intros j fld.
    destruct (skipField _ _); [reflexivity|].
    unfold fmap, option_fmap, option_map, body.
    apply (f_equal Some), into_ext, assignField_ext.
    intros a t v' q Hq. rewrite length_drop in Hq.
    unfold assignValue. apply assignValueN_fuel; simpl in *; lia.
  - destruct (forPrefixLen _ _) as [[[k i] fld]|]; done.
Qed.

(** The bound is never reached. *)
Lemma setWithReflect_fuel addr k fieldVal cv :
  (setWithReflect addr k fieldVal cv).2 <> OutOfFuel.
Proof. unfold setWithReflect. by destruct addr. Qed.

Lemma initIfNil_fuel addr k fieldVal fresh :
  (initIfNil addr k fieldVal fresh).2 <> OutOfFuel.
Proof.
  unfold initIfNil. destruct (IsNil _); [apply setWithReflect_fuel|done].
Qed.

Lemma setBasicValue_fuel ft : forall addr fieldVal rawVal,
  (setBasicValue rt addr ft fieldVal rawVal).2 <> OutOfFuel.
Proof.
  induction ft as [pkg n k|n elemT IH| | | | |n k];
    intros addr fieldVal rawVal; simpl; try done.
  - destruct (_ && _).
    + destruct (Time.ParseDuration _ _); [done|apply setWithReflect_fuel].
    + destruct k; try done; try apply setWithReflect_fuel;
        repeat case_match; try done; apply setWithReflect_fuel.
  - apply (andThen_status (fun st => st <> OutOfFuel));
      [apply initIfNil_fuel|].
    intros [| | | | | |[e|]| | | | |]; try done. apply IH.
  - destruct k; try done; try apply setWithReflect_fuel;
      repeat case_match; try done; apply setWithReflect_fuel.
Qed.

Lemma mapElem_fuel valType rawVal :
  (mapElem rt valType rawVal).2 <> OutOfFuel.
Proof.
  unfold mapElem.
  destruct valType as [| | | | |? [|?]|]; try apply setBasicValue_fuel. done.
Qed.

Lemma setMapValue_fuel addr mt mapVal mapKey rawVal :
  (setMapValue rt addr mt mapVal mapKey rawVal).2 <> OutOfFuel.
Proof.
  unfold setMapValue. destruct mt as [| | |n keyType valType| | |]; try done.
  destruct (negb _); [done|].
  pose proof (mapElem_fuel valType rawVal) as H.
  destruct (mapElem rt valType rawVal) as [cv []]; try done.
  repeat case_match; done.
Qed.

Lemma assignElem_fuel (dsc : descent) fld elemT elemVal rest rawVal :
  (forall a t v p, (dsc a t v p rawVal).2 <> OutOfFuel) ->
  (assignElem rt dsc fld elemT elemVal rest rawVal).2 <> OutOfFuel.
Proof.
  intros Hdsc. unfold assignElem.
  destruct rest as [|r rest]; [apply setBasicValue_fuel|].
  destruct elemT; try done.
  destruct (if IsNil elemVal then _ else _) as [| | | | | |[e|]| | | | |];
    try done.
  apply Hdsc.
Qed.

Lemma assignField_fuel (dsc : descent) addr fld fieldVal leftover rawVal :
  (forall a t v p, (dsc a t v p rawVal).2 <> OutOfFuel) ->
  (assignField rt dsc addr fld fieldVal leftover rawVal).2 <> OutOfFuel.
Proof.
  intros Hdsc. unfold assignField.
  destruct leftover as [|idxStr rest]; [apply setBasicValue_fuel|].
  destruct (ftype fld) as [| | | |n elemT| |]; try done.
  - apply (andThen_status (fun st => st <> OutOfFuel));
      [apply initIfNil_fuel|].
    intros [| | | | | |[e|]| | | | |]; try done.
    destruct (bool_decide _); [apply Hdsc|done].
  - apply (andThen_status (fun st => st <> OutOfFuel));
      [apply initIfNil_fuel|]. intros v. apply setMapValue_fuel.
  - destruct (Strconv.Atoi idxStr); [done|].
    apply (andThen_status (fun st => st <> OutOfFuel));
      [apply initIfNil_fuel|]. intros v1.
    apply (andThen_status (fun st => st <> OutOfFuel)).
    { unfold growSlice. destruct (_ >=? _); [apply setWithReflect_fuel|done]. }
    intros v2. simpl. destruct (_ <? 0); [done|]. destruct (_ !! _); [|done].
    by apply assignElem_fuel.
Qed.

Lemma assignValue_fuel addr typ v parts rawVal :
  (assignValue rt addr typ v parts rawVal).2 <> OutOfFuel.
Proof.
  remember (length parts) as n eqn:Hn.
  revert addr typ v parts Hn.
  induction n as [n IH] using lt_wf_ind; intros addr typ v parts ->.
  rewrite assignValue_unfold.
  destruct parts as [|p parts]; [done|].
  destruct typ; try done.
  destruct (firstMatch _ _) as [[[k i] fld]|] eqn:Hm; [|done].
  apply forPrefixLen_Some in Hm as (k' & Hk & Hm & _).
  apply forFields_Some in Hm as (j & fld' & _ & Hm & _).
  destruct (skipField _ _); [done|]. injection Hm as -> _ _.
  set (dsc := fun a t v' q r =>
    if decide (length q < length (p :: parts))%nat
    then assignValue rt a t v' q r else (v', Nil)).
  rewrite (assignField_ext (assignValue rt) dsc).
  - rewrite into_status. apply assignField_fuel.
    intros a t v' q. unfold dsc. case_decide; [|done]. by eapply IH.
  - intros a t v' q Hq. rewrite length_drop in Hq. unfold dsc.
    rewrite decide_True; [done|]. simpl in *. lia.
Qed.

End Fuel.

(** ** The search: longest prefix first, then declaration order *)

Lemma firstMatch_Some fields parts prefixLen i fld :
  firstMatch fields parts = Some (prefixLen, i, fld) ->
  matchAt fields parts prefixLen i fld
  /\ forall prefixLen' i' fld', matchAt fields parts prefixLen' i' fld' ->
       (prefixLen' < prefixLen)%nat \/ (prefixLen' = prefixLen /\ (i <= i')%nat).
Proof.
  unfold firstMatch. intros H.
  apply forPrefixLen_Some in H as (k & Hk & Hbody & Hlonger).
  apply forFields_Some in Hbody as (j & f & Hj & Hf & Hearlier). simpl in *.
  destruct (skipField f _) eqn:Hskip; [done|]. injection Hf as -> -> ->.
  split; [done|].
  intros k' i' f' (Hk' & Hi' & Hskip').
  destruct (decide (k' < prefixLen)%nat) as [|Hge]; [by left|right].
  destruct (decide (k' = prefixLen)) as [->|Hne].
  - split; [done|]. destruct (decide (i <= i')%nat) as [|Hlt]; [done|].
    specialize (Hearlier i' f' ltac:(lia) Hi'). simpl in Hearlier.
    by rewrite Hskip' in Hearlier.
  - specialize (Hlonger k' ltac:(lia)).
    pose proof (proj1 (forFields_None _ _ _) Hlonger i' f' Hi') as Hnone.
    simpl in Hnone. by rewrite Hskip' in Hnone.
Qed.

Lemma firstMatch_None fields parts :
  firstMatch fields parts = None ->
  forall prefixLen i fld, ~ matchAt fields parts prefixLen i fld.
Proof.
  unfold firstMatch. intros H k i f (Hk & Hi & Hskip).
  pose proof (proj1 (forPrefixLen_None _ _) H k Hk) as Hnone.
  pose proof (proj1 (forFields_None _ _ _) Hnone i f Hi) as Hf.
  simpl in Hf. by rewrite Hskip in Hf.
Qed.

(** C1. [assignValue] on a record tries the prefixes from all the
    segments down to one; it commits to the first field that matches:
    the body runs at a match [(prefixLen, i)] such that every other
    match has a shorter prefix, or the same prefix and a later field.
    With no match at any length the call returns nil and the record as
    it was. *)
Theorem assignValue_longest_prefix_first_field
    (rt : Runtime) (addr : bool) (name : string) (fields : list field)
    (v : value) (parts : list string) (rawVal : string) :
  (exists prefixLen i fld,
      matchAt fields parts prefixLen i fld
      /\ (forall prefixLen' i' fld', matchAt fields parts prefixLen' i' fld' ->
            (prefixLen' < prefixLen)%nat
            \/ (prefixLen' = prefixLen /\ (i <= i')%nat))
      /\ assignValue rt addr (TStruct name fields) v parts rawVal
         = into (withField v i)
             (assignField rt (assignValue rt) addr fld (Field v i)
                (drop prefixLen parts) rawVal))
  \/ ((forall prefixLen i fld, ~ matchAt fields parts prefixLen i fld)
      /\ assignValue rt addr (TStruct name fields) v parts rawVal = (v, Nil)).
Proof.
  rewrite assignValue_unfold.
  destruct (firstMatch fields parts) as [[[k i] fld]|] eqn:Hm.
  - left. exists k, i, fld. apply firstMatch_Some in Hm as [Hat Hfirst].
    repeat split; try done; try apply Hat.
    destruct parts; [|done]. destruct Hat as [Hk _]. simpl in Hk. lia.
  - right. split; [by apply firstMatch_None|]. by destruct parts.
Qed.

(** ** The field loop: name or type name, in declaration order *)

Lemma skipField_false fld candidate :
  skipField fld candidate = false <->
  normalize (fname fld) = candidate \/ normalize (Name (ftype fld)) = candidate.
Proof.
  unfold skipField. rewrite andb_false_iff, !negb_false_iff, !String.eqb_eq.
  done.
Qed.

Lemma skipField_true fld candidate :
  skipField fld candidate = true <->
  normalize (fname fld) <> candidate /\ normalize (Name (ftype fld)) <> candidate.
Proof.
  unfold skipField. rewrite andb_true_iff, !negb_true_iff, !String.eqb_neq.
  done.
Qed.

(** C2, as the code has it.  The field loop stops at the first field,
    in declaration order, whose normalized name or whose normalized
    type name is the candidate: no earlier field matches in either way.
    It finds none exactly when no field matches in either way. *)
Theorem resolveField_first_name_or_type
    (fields : list field) (candidate : string) :
  match resolveField fields candidate with
  | Some (i, fld) =>
      fields !! i = Some fld
      /\ (normalize (fname fld) = candidate
          \/ normalize (Name (ftype fld)) = candidate)
      /\ forall j f, (j < i)%nat -> fields !! j = Some f ->
           normalize (fname f) <> candidate
           /\ normalize (Name (ftype f)) <> candidate
  | None =>
      forall j f, fields !! j = Some f ->
        normalize (fname f) <> candidate
        /\ normalize (Name (ftype f)) <> candidate
  end.
Proof.
  unfold resolveField.
  destruct (forFields _ _ _) as [[i fld]|] eqn:H.
  - apply forFields_Some in H as (j & f & Hj & Hf & Hearlier). simpl in *.
    destruct (skipField f candidate) eqn:Hskip; [done|].
    injection Hf as -> ->.
    split; [done|]. split; [by apply skipField_false|].
    intros j' f' Hlt Hj'. specialize (Hearlier j' f' Hlt Hj'). simpl in Hearlier.
    destruct (skipField f' candidate) eqn:Hs; [|done].
    by apply skipField_true.
  - intros j f Hj.
    pose proof (proj1 (forFields_None _ _ _) H j f Hj) as Hf. simpl in Hf.
    destruct (skipField f candidate) eqn:Hs; [|done].
    by apply skipField_true.
Qed.

(** C2, as the specification has it, fails: a type-name match of an
    earlier field is taken before the name match of a later one. *)
Lemma resolveField_not_name_first :
  ~ (forall fields candidate,
       resolveField fields candidate = resolveNameFirst fields candidate).
Proof.
  intros H.
  specialize (H [StructField "Addr" (TBasic "main" "Host" reflect.String);
                 StructField "Host" stringT] "host").
  vm_compute in H. discriminate H.
Qed.

(** On the record [hostAddrT] the key [HOST] is written to [Addr], the
    field of type [Host], and the field named [Host] stays empty. *)
Example assignValue_type_name_before_name :
  assignValue sampleRuntime true hostAddrT (zero hostAddrT)
    (Strings.Split "HOST") "x"
  = (VStruct [VString "x"; VString ""], Nil).
Proof. vm_compute. reflexivity. Qed.

(** ** Keys that resolve to nothing *)

Lemma withField_Field v i : withField v i (Field v i) = v.
Proof.
  destruct v as [| | | | | | |fs| | | |]; try done. simpl. f_equal.
  destruct (fs !! i) as [x|] eqn:Hi; simpl.
  - by apply list_insert_id.
  - apply list_insert_ge. by apply lookup_ge_None.
Qed.

Lemma growSlice_within addr elemT fieldVal ix :
  ix < Z.of_nat (length (elemsOf fieldVal)) ->
  growSlice addr elemT fieldVal ix = (fieldVal, Nil).
Proof.
  intros H. unfold growSlice.
  destruct (_ >=? _) eqn:Hge; [lia|done].
Qed.



Lemma landsOn_unfold (rt : Runtime) addr name fields v parts i fld leftover
    rawVal :
  landsOn fields parts i fld leftover ->
  assignValue rt addr (TStruct name fields) v parts rawVal
  = into (withField v i)
      (assignField rt (assignValue rt) addr fld (Field v i) leftover rawVal).
Proof.
  intros (k & Hm & <-). rewrite assignValue_unfold, Hm.
  destruct parts; [|done]. by destruct k.
Qed.



(** The same on a slice: for the key [INNERS_1_X] the slice [Inners]
    is grown to two elements, and the key is then ignored. *)
Example assignValue_unmatched_grows :
  unmatchedIn configT ["INNERS"; "1"; "X"]
  /\ assignValue sampleRuntime true configT (zero configT)
       ["INNERS"; "1"; "X"] "v"
     = (withField (zero configT) 6
          (VSlice (Some [zero innerT; zero innerT])), Nil).
Proof.
  split; [|by vm_compute].
  eapply (unmatched_inside _ _ _ 6%nat (StructField "Inners" (TSlice "" innerT))
            ["1"; "X"] innerT ["X"]); try done.
  - exists 1%nat. by vm_compute.
  - by apply unmatched_here.
Qed.


(** ** Slices: the index and the growth *)

Section Slices.

Variable rt : Runtime.

Lemma initIfNil_true k fieldVal fresh :
  initIfNil true k fieldVal fresh
  = (if IsNil fieldVal then fresh else fieldVal, Nil).
Proof. unfold initIfNil, setWithReflect. by destruct (IsNil _). Qed.

(** A segment that [strconv.Atoi] rejects where an index is expected:
    the key fails with the slice-index error and the slice is not
    touched. *)
Lemma assignField_index_rejected (dsc : descent) addr fld n elemT fieldVal
    idxStr rest rawVal e :
  ftype fld = TSlice n elemT ->
  Strconv.Atoi idxStr = inl e ->
  assignField rt dsc addr fld fieldVal (idxStr :: rest) rawVal
  = (fieldVal, Failed (ErrSliceIndex idxStr (fname fld))).
Proof. intros Hft Hix. unfold assignField. by rewrite Hft, Hix. Qed.

(** A negative index passes [strconv.Atoi] and the growth test, and
    [fieldVal.Index(ix)] panics. *)
Lemma assignField_negative_index (dsc : descent) fld n elemT fieldVal
    idxStr rest rawVal ix :
  ftype fld = TSlice n elemT ->
  Strconv.Atoi idxStr = inr ix ->
  ix < 0 ->
  (assignField rt dsc true fld fieldVal (idxStr :: rest) rawVal).2
  = Panic "reflect: slice index out of range".
Proof.
  intros Hft Hix Hneg. unfold assignField. rewrite Hft, Hix.
  rewrite initIfNil_true, andThen_Nil.
  rewrite growSlice_within by lia. rewrite andThen_Nil.
  destruct (ix <? 0) eqn:E; [done|lia].
Qed.


End Slices.



(** The whole record after [ITEMS_2=x]: a slice of length 3 with zero
    values at 0 and 1 and the value at 2. *)
Example assignValue_ITEMS_2 :
  assignValue sampleRuntime true configT (zero configT)
    (Strings.Split "ITEMS_2") "x"
  = (withField (zero configT) 1
       (VSlice (Some [VString ""; VString ""; VString "x"])), Nil).
Proof. vm_compute. reflexivity. Qed.


(** ** Maps: the key of the entry *)

(** C7.  A key that lands on a map field whose key type is [string],
    with segments left after the prefix, stores its value under the
    leftover segments joined with underscores as they are, neither
    lower-cased nor stripped; the other entries stay, and a nil map is
    made first. *)
Theorem assignValue_map_key_is_raw_leftover
    (rt : Runtime) (name : string) (fields : list field) (v : value)
    (parts : list string) (i : nat) (fld : field) (leftover : list string)
    (n : string) (keyType valType : type)
    (m : option (gmap string value)) (rawVal : string) (cv : value) :
  landsOn fields parts i fld leftover ->
  leftover <> [] ->
  ftype fld = TMap n keyType valType ->
  isStringType keyType = true ->
  Field v i = VMap m ->
  mapElem rt valType rawVal = (cv, Nil) ->
  assignValue rt true (TStruct name fields) v parts rawVal
  = (withField v i
       (VMap (Some (<[Strings.Join leftover "_" := cv]> (default ∅ m)))),
     Nil).
Proof.
  intros Hl Hne Hft Hkey Hfv Hcv.
  rewrite (landsOn_unfold _ _ _ _ _ _ _ _ _ _ Hl), Hfv.
  unfold assignField. destruct leftover as [|seg rest]; [done|].
  rewrite Hft, initIfNil_true, andThen_Nil.
  unfold setMapValue. rewrite Hcv, Hkey.
  assert (kindOf keyType = reflect.String) as ->.
  { destruct keyType; try done. simpl in Hkey.
    apply andb_prop in Hkey as [_ Hk]. by apply bool_decide_eq_true in Hk. }
  simpl. by destruct m.
Qed.

(** The key [TAGS_Foo_Bar] on a zero [configT]: the entry of [Tags]
    has the key [Foo_Bar]. *)
Lemma assignValue_map_key_is_raw_leftover_witness :
  assignValue sampleRuntime true configT (zero configT)
    (Strings.Split "TAGS_Foo_Bar") "v"
  = (withField (zero configT) 2
       (VMap (Some (<[Strings.Join ["Foo"; "Bar"] "_" := VString "v"]>
                      (default ∅ None)))),
     Nil).
Proof.
  apply (assignValue_map_key_is_raw_leftover sampleRuntime "Config"
           [StructField "Host" stringT;
            StructField "Items" (TSlice "" stringT);
            StructField "Tags" (TMap "" stringT stringT);
            StructField "DB" (TPtr "" innerT);
            StructField "Timeout" DurationT;
            StructField "Nested" innerT;
            StructField "Inners" (TSlice "" innerT)]
           (zero configT) (Strings.Split "TAGS_Foo_Bar") 2%nat
           (StructField "Tags" (TMap "" stringT stringT)) ["Foo"; "Bar"]
           "" stringT stringT None "v" (VString "v")).
  - exists 1%nat. split; vm_compute; reflexivity.
  - discriminate.
  - reflexivity.
  - reflexivity.
  - reflexivity.
  - reflexivity.
Defined.

(** The entry read back: the key is exactly [Foo_Bar]. *)
Example assignValue_TAGS_Foo_Bar :
  match (assignValue sampleRuntime true configT (zero configT)
           (Strings.Split "TAGS_Foo_Bar") "v").1 with
  | VStruct fs =>
      match fs !! 2%nat with
      | Some (VMap (Some m)) =>
          m !! "Foo_Bar" = Some (VString "v") /\ size m = 1%nat
      | _ => False
      end
  | _ => False
  end.
Proof. vm_compute. split; reflexivity. Qed.

(** ** Leaves: durations and the kinds without a rule *)

Lemma isDuration_eq ft : isDuration ft = true -> ft = DurationT.
Proof.
  destruct ft as [pkg n k| | | | | |]; try done. simpl.
  intros H. apply andb_prop in H as [H Hk]. apply andb_prop in H as [Hp Hn].
  apply String.eqb_eq in Hp, Hn. apply bool_decide_eq_true in Hk.
  by subst.
Qed.

(** C9.  On a field of the duration type the raw value goes through
    the duration parser: ["1h30m"] gives ninety minutes, and ["abc"]
    fails with the parse error of [setBasicValue], the field left as it
    was. *)
Theorem setBasicValue_duration
    (rt : Runtime) (ft : type) (fieldVal : value) :
  isDuration ft = true ->
  setBasicValue rt true ft fieldVal "1h30m" = (VInt (90 * Time.Minute), Nil)
  /\ setBasicValue rt true ft fieldVal "abc"
     = (fieldVal,
        Failed (ErrCannotParse "abc" "Duration" (ErrInvalidDuration "abc"))).
Proof.
  intros H. apply isDuration_eq in H as ->. split; reflexivity.
Qed.

Lemma setBasicValue_duration_witness :
  isDuration DurationT = true
  /\ setBasicValue sampleRuntime true DurationT (VInt 0) "1h30m"
     = (VInt (90 * Time.Minute), Nil)
  /\ setBasicValue sampleRuntime true DurationT (VInt 0) "abc"
     = (VInt 0,
        Failed (ErrCannotParse "abc" "Duration" (ErrInvalidDuration "abc"))).
Proof.
  split; [reflexivity|].
  apply (setBasicValue_duration sampleRuntime DurationT (VInt 0)).
  reflexivity.
Defined.

(** The key [TIMEOUT] on a zero [configT], with both values. *)
Example assignValue_TIMEOUT :
  assignValue sampleRuntime true configT (zero configT) ["TIMEOUT"] "1h30m"
  = (withField (zero configT) 4 (VInt 5400000000000), Nil)
  /\ assignValue sampleRuntime true configT (zero configT) ["TIMEOUT"] "abc"
     = (zero configT,
        Failed (ErrCannotParse "abc" "Duration" (ErrInvalidDuration "abc"))).
Proof. split; vm_compute; reflexivity. Qed.

(** The kinds [setBasicValue] has no rule for give the error of its
    default case, and the field is left as it was. *)
Lemma setBasicValue_unsupported (rt : Runtime) addr ft fieldVal rawVal :
  kindOf ft ∈ [reflect.Map; reflect.Slice; reflect.Struct] ->
  setBasicValue rt addr ft fieldVal rawVal
  = (fieldVal, Failed (ErrUnsupportedKind (kindOf ft) rawVal)).
Proof.
  rewrite !elem_of_cons, elem_of_nil. intros Hk.
  destruct ft as [pkg n k| | | | | |n k]; simpl in *;
    try (destruct Hk as [Hk|[Hk|[Hk|[]]]]; discriminate Hk); try done.
  - assert (bool_decide (k = reflect.Int64) = false) as ->.
    { apply bool_decide_eq_false. intros ->.
      destruct Hk as [Hk|[Hk|[Hk|[]]]]; discriminate Hk. }
    rewrite andb_false_r.
    by destruct Hk as [->|[->|[->|[]]]].
  - by destruct Hk as [->|[->|[->|[]]]].
Qed.

(** C10.  A key whose prefix takes all its segments and lands on a
    map, a slice or a record field is not assigned and not ignored:
    [assignValue] returns the unsupported-kind error with the record
    as it was, and the loop of [Unmarshal] stops there with that error
    under the key. *)
Theorem assignValue_whole_key_on_container
    (rt : Runtime) (addr : bool) (name : string) (fields : list field)
    (v : value) (rawKey : string) (i : nat) (fld : field) (rawVal : string)
    (rest : list (string * string)) :
  landsOn fields (Strings.Split rawKey) i fld [] ->
  kindOf (ftype fld) ∈ [reflect.Map; reflect.Slice; reflect.Struct] ->
  assignValue rt addr (TStruct name fields) v (Strings.Split rawKey) rawVal
  = (v, Failed (ErrUnsupportedKind (kindOf (ftype fld)) rawVal))
  /\ rangeLoop rt ((rawKey, rawVal) :: rest) (TStruct name fields) v
     = (v, Failed (ErrKey rawKey
                     (ErrUnsupportedKind (kindOf (ftype fld)) rawVal))).
Proof.
  intros Hl Hk.
  assert (forall a,
    assignValue rt a (TStruct name fields) v (Strings.Split rawKey) rawVal
    = (v, Failed (ErrUnsupportedKind (kindOf (ftype fld)) rawVal))) as Ha.
  { intros a. rewrite (landsOn_unfold _ _ _ _ _ _ _ _ _ _ Hl).
    unfold assignField. rewrite setBasicValue_unsupported by done.
    unfold into. simpl. by rewrite withField_Field. }
  split; [apply Ha|].
  simpl. destruct (length (Strings.Split rawKey) =? 0)%nat eqn:E.
  - destruct Hl as (k & Hm & _). apply Nat.eqb_eq in E.
    apply firstMatch_Some in Hm as [(Hk' & _) _]. lia.
  - by rewrite Ha.
Qed.

(** The keys [TAGS], [ITEMS] and [NESTED] on a zero [configT]. *)
Lemma assignValue_whole_key_on_container_witness :
  assignValue sampleRuntime true configT (zero configT)
    (Strings.Split "TAGS") "v"
  = (zero configT, Failed (ErrUnsupportedKind reflect.Map "v"))
  /\ rangeLoop sampleRuntime [("TAGS", "v"); ("HOST", "h")] configT (zero configT)
     = (zero configT,
        Failed (ErrKey "TAGS" (ErrUnsupportedKind reflect.Map "v"))).
Proof.
  apply (assignValue_whole_key_on_container sampleRuntime true "Config"
           [StructField "Host" stringT;
            StructField "Items" (TSlice "" stringT);
            StructField "Tags" (TMap "" stringT stringT);
            StructField "DB" (TPtr "" innerT);
            StructField "Timeout" DurationT;
            StructField "Nested" innerT;
            StructField "Inners" (TSlice "" innerT)]
           (zero configT) "TAGS" 2%nat
           (StructField "Tags" (TMap "" stringT stringT)) "v" [("HOST", "h")]).
  - exists 1%nat. split; vm_compute; reflexivity.
  - simpl. rewrite elem_of_cons. left. reflexivity.
Defined.

(** ** The loop over the keys: the first failure ends the decode *)

Lemma rangeLoop_app (rt : Runtime) entries1 entries2 typ elem :
  rangeLoop rt (entries1 ++ entries2) typ elem
  = match rangeLoop rt entries1 typ elem with
    | (elem1, Nil) => rangeLoop rt entries2 typ elem1
    | r => r
    end.
Proof.
  revert elem. induction entries1 as [|[rawKey rawVal] rest IH]; intros elem;
    [done|].
  simpl. destruct (length _ =? 0)%nat; [apply IH|].
  destruct (assignValue _ _ _ _ _ _) as [elem1 []]; done.
Qed.

Lemma Split_nonempty s : Strings.Split s <> [].
Proof.
  unfold Strings.Split. generalize "". induction s as [|c s IH]; intros cur;
    simpl; [done|].
  destruct (Ascii.eqb _ _); [done|apply IH].
Qed.

(** The step of the loop on one entry. *)
Lemma rangeLoop_cons (rt : Runtime) rawKey rawVal rest typ elem :
  rangeLoop rt ((rawKey, rawVal) :: rest) typ elem
  = match assignValue rt true typ elem (Strings.Split rawKey) rawVal with
    | (elem1, Nil) => rangeLoop rt rest typ elem1
    | (elem1, Failed err) => (elem1, Failed (ErrKey rawKey err))
    | r => r
    end.
Proof.
  simpl. pose proof (Split_nonempty rawKey) as H.
  by destruct (Strings.Split rawKey).
Qed.

(** C8.  When the keys before [rawKey] in the iteration order are
    assigned without error and [rawKey] fails with [cause], [Unmarshal]
    returns the error [key rawKey: cause] (with the prefix of the
    package); the destination is as the failing key left it, and the
    keys after it in the order are not looked at. *)
Theorem Unmarshal_fails_fast
    (rt : Runtime) (range : gmap string string -> list (string * string))
    (data goType : string) (elemT : type) (elem elem1 elem2 : value)
    (flatMap : gmap string string)
    (before after : list (string * string))
    (rawKey rawVal : string) (cause : error) :
  UnmarshalBytes rt data = inr flatMap ->
  range flatMap = (before ++ (rawKey, rawVal) :: after)%list ->
  kindOf elemT = reflect.Struct ->
  rangeLoop rt before elemT elem = (elem1, Nil) ->
  assignValue rt true elemT elem1 (Strings.Split rawKey) rawVal
  = (elem2, Failed cause) ->
  Unmarshal rt range data (AnyPtr goType elemT (Some elem))
  = (AnyPtr goType elemT (Some elem2), Failed (ErrKey rawKey cause))
  /\ Error rt (ErrKey rawKey cause)
     = "xconfigdotenv: Unmarshal: key " ++ quote rt rawKey ++ ": "
       ++ Error rt cause.
Proof.
  intros Hparse Hrange Hkind Hbefore Hfail. split; [|done].
  unfold Unmarshal. rewrite Hparse, Hkind, Hrange. simpl.
  by rewrite rangeLoop_app, Hbefore, rangeLoop_cons, Hfail.
Qed.

(** The iteration order that swaps the first two entries. *)
Lemma Unmarshal_fails_fast_witness :
  let range := fun m : gmap string string =>
    match map_to_list m with
    | x :: y :: rest => y :: x :: rest
    | l => l
    end in
  Unmarshal threeKeysRuntime range "" (AnyPtr "*Config" configT (Some (zero configT)))
  = (AnyPtr "*Config" configT (Some (withField (zero configT) 0 (VString "h"))),
     Failed (ErrKey "TAGS" (ErrUnsupportedKind reflect.Map "v")))
  /\ Error threeKeysRuntime (ErrKey "TAGS" (ErrUnsupportedKind reflect.Map "v"))
     = "xconfigdotenv: Unmarshal: key " ++ quote threeKeysRuntime "TAGS" ++ ": "
       ++ Error threeKeysRuntime (ErrUnsupportedKind reflect.Map "v").
Proof.
  intros range.
  apply (Unmarshal_fails_fast threeKeysRuntime range "" "*Config" configT
           (zero configT) (withField (zero configT) 0 (VString "h"))
           (withField (zero configT) 0 (VString "h"))
           (<["HOST" := "h"]> (<["TAGS" := "v"]> (<["PORT" := "1"]> ∅)))
           [("HOST", "h")] [("PORT", "1")] "TAGS" "v"
           (ErrUnsupportedKind reflect.Map "v")).
  - reflexivity.
  - vm_compute. reflexivity.
  - reflexivity.
  - vm_compute. reflexivity.
  - vm_compute. reflexivity.
Defined.

(** ** The order of the keys *)

Lemma Field_withField_ne v i j a :
  i <> j -> Field (withField v i a) j = Field v j.
Proof.
  intros Hne. destruct v as [| | | | | | |fs| | | |]; try done. simpl.
  by rewrite list_lookup_insert_ne.
Qed.


Section Order.

Variable rt : Runtime.
Variable name : string.
Variable fields : list field.

(** One turn of the loop of [Unmarshal]. *)
Let step (e : string * string) (elem : value) : value * status :=
  assignValue rt true (TStruct name fields) elem (Strings.Split e.1) e.2.

(** A key under no field leaves the record alone; a key under field
    [i] reads and writes that field only. *)
Lemma step_no_field e elem :
  topField fields e.1 = None -> step e elem = (elem, Nil).
Proof.
  unfold topField, step. intros H. rewrite assignValue_unfold.
  destruct (firstMatch _ _) as [[[k i] fld]|]; [done|].
  by destruct (Strings.Split _).
Qed.








End Order.






(** * Further properties of the decoder *)

(** ** Normalization and the segments of a key *)








Lemma dropUnderscores_app s t :
  Strings.dropUnderscores (s ++ t)
  = Strings.dropUnderscores s ++ Strings.dropUnderscores t.
Proof.
  induction s as [|c s IH]; simpl; [done|].
  destruct (Ascii.eqb c "_"); simpl; by rewrite IH.
Qed.



Lemma string_app_assoc (s t u : string) : (s ++ t) ++ u = s ++ t ++ u.
Proof.
  induction s as [|c s IH]; [done|].
  change (String c ((s ++ t) ++ u) = String c (s ++ t ++ u)). by rewrite IH.
Qed.

Lemma string_app_nil_r (s : string) : s ++ "" = s.
Proof.
  induction s as [|c s IH]; [done|].
  change (String c (s ++ "") = String c s). by rewrite IH.
Qed.

Lemma splitAcc_nonempty s cur : Strings.splitAcc s cur <> [].
Proof.
  revert cur. induction s as [|c s IH]; intros cur; simpl; [done|].
  destruct (Ascii.eqb _ _); [done|apply IH].
Qed.

Lemma Join_splitAcc s cur :
  Strings.Join (Strings.splitAcc s cur) "_" = cur ++ s.
Proof.
  revert cur. induction s as [|c s IH]; intros cur; simpl.
  - by rewrite string_app_nil_r.
  - destruct (Ascii.eqb c "_") eqn:E.
    + apply Ascii.eqb_eq in E as ->.
      pose proof (splitAcc_nonempty s "") as Hne. specialize (IH "").
      destruct (Strings.splitAcc s "") as [|y rest]; [done|].
      change (Strings.Join (cur :: y :: rest) "_")
        with (cur ++ "_" ++ Strings.Join (y :: rest) "_").
      by rewrite IH.
    + rewrite IH. by rewrite string_app_assoc.
Qed.

(** Joining the segments of a key with underscores gives the key
    back: the split loses nothing. *)
Theorem Join_Split (rawKey : string) :
  Strings.Join (Strings.Split rawKey) "_" = rawKey.
Proof. apply Join_splitAcc. Qed.

(** No segment of a key holds an underscore. *)
Theorem Split_no_underscore (rawKey segment : string) :
  segment ∈ Strings.Split rawKey ->
  Strings.dropUnderscores segment = segment.
Proof.
  unfold Strings.Split.
  assert (forall s cur seg,
            Strings.dropUnderscores cur = cur ->
            seg ∈ Strings.splitAcc s cur ->
            Strings.dropUnderscores seg = seg) as H.
  { induction s as [|c s IH]; intros cur seg Hcur; simpl.
    - by intros ->%list_elem_of_singleton.
    - destruct (Ascii.eqb c "_") eqn:E.
      + intros [->|Hin]%elem_of_cons; [done|]. by apply (IH "").
      + apply IH. rewrite dropUnderscores_app, Hcur. simpl. by rewrite E. }
  by apply H.
Qed.

Lemma Split_no_underscore_witness :
  "Foo" ∈ Strings.Split "TAGS_Foo_Bar"
  /\ Strings.dropUnderscores "Foo" = "Foo".
Proof.
  assert ("Foo" ∈ Strings.Split "TAGS_Foo_Bar") as H.
  { change ("Foo" ∈ ["TAGS"; "Foo"; "Bar"]).
    apply list_elem_of_further, list_elem_of_here. }
  split; [exact H|].
  apply (Split_no_underscore "TAGS_Foo_Bar" "Foo" H).
Defined.

(** ** A key that names a field in full *)

Lemma normalizedPrefix_all rawKey :
  normalizedPrefix (Strings.Split rawKey) (length (Strings.Split rawKey))
  = normalize rawKey.
Proof. unfold normalizedPrefix. by rewrite firstn_all, Join_Split. Qed.

Lemma forFields_resolve candidate fields (k : nat) :
  forFields fields 0 (fun i fld =>
    if skipField fld candidate then None else Some (k, i, fld))
  = (fun '(i, fld) => (k, i, fld)) <$> resolveField fields candidate.
Proof.
  unfold resolveField. rewrite <- forFields_fmap.
  apply forFields_ext. intros j fld. by destruct (skipField _ _).
Qed.

Lemma firstMatch_whole_key fields parts i fld :
  parts <> [] ->
  resolveField fields (normalizedPrefix parts (length parts)) = Some (i, fld) ->
  firstMatch fields parts = Some (length parts, i, fld).
Proof.
  intros Hne Hr. unfold firstMatch.
  destruct (length parts) as [|n] eqn:Hlen; [by destruct parts|].
  simpl. rewrite forFields_resolve. by rewrite Hr.
Qed.

(** Two spellings of a key with one normal form ([DB_HOST], [dbhost],
    [Db_Host]) do the same to a record that has a field with that
    normal form as its name or type name: the value goes to the first
    such field, as a leaf. *)
Theorem assignValue_key_spelling
    (rt : Runtime) (addr : bool) (name : string) (fields : list field)
    (v : value) (rawKey1 rawKey2 rawVal : string) (i : nat) (fld : field) :
  normalize rawKey1 = normalize rawKey2 ->
  resolveField fields (normalize rawKey1) = Some (i, fld) ->
  assignValue rt addr (TStruct name fields) v (Strings.Split rawKey1) rawVal
  = into (withField v i) (setBasicValue rt addr (ftype fld) (Field v i) rawVal)
  /\ assignValue rt addr (TStruct name fields) v (Strings.Split rawKey2) rawVal
     = assignValue rt addr (TStruct name fields) v (Strings.Split rawKey1) rawVal.
Proof.
  intros Hnorm Hr.
  assert (forall rawKey, normalize rawKey = normalize rawKey1 ->
    assignValue rt addr (TStruct name fields) v (Strings.Split rawKey) rawVal
    = into (withField v i)
        (setBasicValue rt addr (ftype fld) (Field v i) rawVal)) as H.
  { intros rawKey Hk.
    rewrite (landsOn_unfold rt addr name fields v _ i fld []); [done|].
    exists (length (Strings.Split rawKey)). split; [|apply drop_all].
    apply firstMatch_whole_key; [apply Split_nonempty|].
    by rewrite normalizedPrefix_all, Hk. }
  split; [by apply H|]. by rewrite !H.
Qed.

(** The keys [DB_HOST] and [dbhost] on a record with a field
    [DBHost]. *)
Lemma assignValue_key_spelling_witness :
  let fields := [StructField "DBHost" stringT; StructField "Port" intT] in
  assignValue sampleRuntime true (TStruct "Config" fields)
    (VStruct [VString ""; VInt 0]) (Strings.Split "DB_HOST") "localhost"
  = into (withField (VStruct [VString ""; VInt 0]) 0)
      (setBasicValue sampleRuntime true stringT
         (Field (VStruct [VString ""; VInt 0]) 0) "localhost")
  /\ assignValue sampleRuntime true (TStruct "Config" fields)
       (VStruct [VString ""; VInt 0]) (Strings.Split "dbhost") "localhost"
     = assignValue sampleRuntime true (TStruct "Config" fields)
         (VStruct [VString ""; VInt 0]) (Strings.Split "DB_HOST") "localhost".
Proof.
  intros fields.
  apply (assignValue_key_spelling sampleRuntime true "Config" fields
           (VStruct [VString ""; VInt 0]) "DB_HOST" "dbhost" "localhost"
           0%nat (StructField "DBHost" stringT)).
  - vm_compute. reflexivity.
  - vm_compute. reflexivity.
Defined.

(** ** The depth of the descent *)

(** Every descent of [assignValue] drops at least one segment: with a
    bound above the number of segments the recursion ends before the
    bound, and the result does not depend on the bound. *)
Theorem assignValueN_terminates
    (rt : Runtime) (fuel : nat) (addr : bool) (typ : type) (v : value)
    (parts : list string) (rawVal : string) :
  (length parts < fuel)%nat ->
  assignValueN rt fuel addr typ v parts rawVal
  = assignValue rt addr typ v parts rawVal
  /\ (assignValueN rt fuel addr typ v parts rawVal).2 <> OutOfFuel.
Proof.
  intros Hfuel.
  assert (assignValueN rt fuel addr typ v parts rawVal
          = assignValue rt addr typ v parts rawVal) as ->.
  { unfold assignValue. apply assignValueN_fuel; lia. }
  split; [done|apply assignValue_fuel].
Qed.

Lemma assignValueN_terminates_witness :
  (length ["DB"; "HOST"] < 5)%nat
  /\ assignValueN sampleRuntime 5 true configT (zero configT)
       ["DB"; "HOST"] "h"
     = assignValue sampleRuntime true configT (zero configT) ["DB"; "HOST"] "h"
  /\ (assignValueN sampleRuntime 5 true configT (zero configT)
        ["DB"; "HOST"] "h").2 <> OutOfFuel.
Proof.
  assert (length ["DB"; "HOST"] < 5)%nat as H by (simpl; lia).
  split; [exact H|].
  apply (assignValueN_terminates sampleRuntime 5 true configT (zero configT)
           ["DB"; "HOST"] "h" H).
Defined.

(** ** What a key leaves alone *)

(** A field the key does not land on is as it was after the call,
    whether the call ends with nil, an error or a panic. *)
Theorem assignValue_other_fields
    (rt : Runtime) (addr : bool) (name : string) (fields : list field)
    (v : value) (parts : list string) (rawVal : string) (j : nat) :
  (forall fld leftover, ~ landsOn fields parts j fld leftover) ->
  Field (assignValue rt addr (TStruct name fields) v parts rawVal).1 j
  = Field v j.
Proof.
  intros Hj. rewrite assignValue_unfold.
  destruct parts as [|p parts]; [done|].
  destruct (firstMatch fields (p :: parts)) as [[[k i] fld]|] eqn:Hm; [|done].
  rewrite into_value. apply Field_withField_ne. intros ->.
  apply (Hj fld (drop k (p :: parts))). by exists k.
Qed.

Lemma assignValue_other_fields_witness :
  Field (assignValue sampleRuntime true configT (zero configT)
           ["ITEMS"; "2"] "x").1 0
  = Field (zero configT) 0.
Proof.
  apply (assignValue_other_fields sampleRuntime true "Config"
           [StructField "Host" stringT;
            StructField "Items" (TSlice "" stringT);
            StructField "Tags" (TMap "" stringT stringT);
            StructField "DB" (TPtr "" innerT);
            StructField "Timeout" DurationT;
            StructField "Nested" innerT;
            StructField "Inners" (TSlice "" innerT)]
           (zero configT) ["ITEMS"; "2"] "x" 0%nat).
  intros fld leftover (k & Hm & _). vm_compute in Hm. discriminate Hm.
Defined.

(** ** Entering records *)

(** A key that lands on a record held by value, with segments left,
    is the leftover assigned in that record. *)
Theorem assignValue_record_descent
    (rt : Runtime) (addr : bool) (name : string) (fields : list field)
    (v : value) (parts : list string) (rawVal : string) (i : nat) (fld : field)
    (leftover : list string) (n : string) (inner : list field) :
  landsOn fields parts i fld leftover ->
  leftover <> [] ->
  ftype fld = TStruct n inner ->
  assignValue rt addr (TStruct name fields) v parts rawVal
  = into (withField v i)
      (assignValue rt addr (TStruct n inner) (Field v i) leftover rawVal).
Proof.
  intros Hl Hne Hft. rewrite (landsOn_unfold _ _ _ _ _ _ _ _ _ _ Hl).
  unfold assignField. destruct leftover; [done|]. by rewrite Hft.
Qed.

(** The key [NESTED_PORT] on a zero [configT]. *)
Lemma assignValue_record_descent_witness :
  assignValue sampleRuntime true configT (zero configT) ["NESTED"; "PORT"] "80"
  = into (withField (zero configT) 5)
      (assignValue sampleRuntime true
         (TStruct "Inner" [StructField "Host" stringT; StructField "Port" intT])
         (Field (zero configT) 5) ["PORT"] "80").
Proof.
  apply (assignValue_record_descent sampleRuntime true "Config"
           [StructField "Host" stringT;
            StructField "Items" (TSlice "" stringT);
            StructField "Tags" (TMap "" stringT stringT);
            StructField "DB" (TPtr "" innerT);
            StructField "Timeout" DurationT;
            StructField "Nested" innerT;
            StructField "Inners" (TSlice "" innerT)]
           (zero configT) ["NESTED"; "PORT"] "80" 5%nat
           (StructField "Nested" innerT) ["PORT"] "Inner"
           [StructField "Host" stringT; StructField "Port" intT]).
  - exists 1%nat. split; vm_compute; reflexivity.
  - discriminate.
  - reflexivity.
Defined.

(** A key that lands on a pointer to a record, with segments left:
    a nil pointer gets a zero pointee first, and the leftover is
    assigned in the pointee.  The pointer is not nil afterwards, with
    whatever status the assignment inside ends. *)
Theorem assignValue_pointer_descent
    (rt : Runtime) (name : string) (fields : list field)
    (v : value) (parts : list string) (rawVal : string) (i : nat) (fld : field)
    (leftover : list string) (n : string) (elemT : type) (p : option value) :
  landsOn fields parts i fld leftover ->
  leftover <> [] ->
  ftype fld = TPtr n elemT ->
  kindOf elemT = reflect.Struct ->
  Field v i = VPtr p ->
  assignValue rt true (TStruct name fields) v parts rawVal
  = into (fun e => withField v i (VPtr (Some e)))
      (assignValue rt true elemT (default (zero elemT) p) leftover rawVal).
Proof.
  intros Hl Hne Hft Hk Hfv. rewrite (landsOn_unfold _ _ _ _ _ _ _ _ _ _ Hl).
  unfold assignField. destruct leftover as [|s leftover]; [done|].
  rewrite Hft, Hfv, initIfNil_true, andThen_Nil, Hk.
  rewrite bool_decide_eq_true_2 by done.
  by destruct p.
Qed.

(** The key [DB_PORT] on a zero [configT], whose [DB] is nil. *)
Lemma assignValue_pointer_descent_witness :
  assignValue sampleRuntime true configT (zero configT) ["DB"; "PORT"] "80"
  = into (fun e => withField (zero configT) 3 (VPtr (Some e)))
      (assignValue sampleRuntime true innerT (default (zero innerT) None)
         ["PORT"] "80").
Proof.
  apply (assignValue_pointer_descent sampleRuntime "Config"
           [StructField "Host" stringT;
            StructField "Items" (TSlice "" stringT);
            StructField "Tags" (TMap "" stringT stringT);
            StructField "DB" (TPtr "" innerT);
            StructField "Timeout" DurationT;
            StructField "Nested" innerT;
            StructField "Inners" (TSlice "" innerT)]
           (zero configT) ["DB"; "PORT"] "80" 3%nat
           (StructField "DB" (TPtr "" innerT)) ["PORT"] "" innerT None).
  - exists 1%nat. split; vm_compute; reflexivity.
  - discriminate.
  - reflexivity.
  - reflexivity.
  - reflexivity.
Defined.

(** A key that lands on a pointer to something that is not a record,
    with segments left, fails with the pointer-descent error; a nil
    pointer has been given a zero pointee by then, and keeps it. *)
Theorem assignValue_pointer_to_scalar
    (rt : Runtime) (name : string) (fields : list field)
    (v : value) (parts : list string) (rawVal : string) (i : nat) (fld : field)
    (leftover : list string) (n : string) (elemT : type) (p : option value) :
  landsOn fields parts i fld leftover ->
  leftover <> [] ->
  ftype fld = TPtr n elemT ->
  kindOf elemT <> reflect.Struct ->
  Field v i = VPtr p ->
  assignValue rt true (TStruct name fields) v parts rawVal
  = (withField v i (VPtr (Some (default (zero elemT) p))),
     Failed (ErrDescendPointer (fname fld) (kindOf elemT) leftover)).
Proof.
  intros Hl Hne Hft Hk Hfv. rewrite (landsOn_unfold _ _ _ _ _ _ _ _ _ _ Hl).
  unfold assignField. destruct leftover as [|s leftover]; [done|].
  rewrite Hft, Hfv, initIfNil_true, andThen_Nil.
  rewrite bool_decide_eq_false_2 by done.
  by destruct p.
Qed.

(** The key [PORT_X] on [struct { Port *int }] with a nil [Port]. *)
Lemma assignValue_pointer_to_scalar_witness :
  let fields := [StructField "Port" (TPtr "" intT)] in
  assignValue sampleRuntime true (TStruct "C" fields) (VStruct [VPtr None])
    ["PORT"; "X"] "1"
  = (withField (VStruct [VPtr None]) 0
       (VPtr (Some (default (zero intT) None))),
     Failed (ErrDescendPointer "Port" (kindOf intT) ["X"])).
Proof.
  intros fields.
  apply (assignValue_pointer_to_scalar sampleRuntime "C" fields
           (VStruct [VPtr None]) ["PORT"; "X"] "1" 0%nat
           (StructField "Port" (TPtr "" intT)) ["X"] "" intT None).
  - exists 1%nat. split; vm_compute; reflexivity.
  - discriminate.
  - reflexivity.
  - discriminate.
  - reflexivity.
Defined.

(** A key that lands on a field that is no pointer, record, map or
    slice, with segments left, fails with the descent error, and the
    record is as it was. *)
Theorem assignValue_scalar_with_leftover
    (rt : Runtime) (addr : bool) (name : string) (fields : list field)
    (v : value) (parts : list string) (rawVal : string) (i : nat) (fld : field)
    (leftover : list string) :
  landsOn fields parts i fld leftover ->
  leftover <> [] ->
  isContainer (ftype fld) = false ->
  assignValue rt addr (TStruct name fields) v parts rawVal
  = (v, Failed (ErrDescend (fname fld) (kindOf (ftype fld)) leftover)).
Proof.
  intros Hl Hne Hc. rewrite (landsOn_unfold _ _ _ _ _ _ _ _ _ _ Hl).
  unfold assignField. destruct leftover as [|s leftover]; [done|].
  destruct (ftype fld); try done; unfold into; simpl;
    by rewrite withField_Field.
Qed.

(** The key [HOST_NAME] on a zero [configT]: [Host] is a string. *)
Lemma assignValue_scalar_with_leftover_witness :
  assignValue sampleRuntime true configT (zero configT) ["HOST"; "NAME"] "h"
  = (zero configT, Failed (ErrDescend "Host" reflect.String ["NAME"])).
Proof.
  apply (assignValue_scalar_with_leftover sampleRuntime true "Config"
           [StructField "Host" stringT;
            StructField "Items" (TSlice "" stringT);
            StructField "Tags" (TMap "" stringT stringT);
            StructField "DB" (TPtr "" innerT);
            StructField "Timeout" DurationT;
            StructField "Nested" innerT;
            StructField "Inners" (TSlice "" innerT)]
           (zero configT) ["HOST"; "NAME"] "h" 0%nat
           (StructField "Host" stringT) ["NAME"]).
  - exists 1%nat. split; vm_compute; reflexivity.
  - discriminate.
  - reflexivity.
Defined.

(** ** Maps: what goes wrong *)

(** A key that lands on a map whose key type is not of string kind
    fails with the key-type error; a nil map has been made an empty
    map by then, and no entry is stored. *)
Theorem assignValue_map_key_type
    (rt : Runtime) (name : string) (fields : list field)
    (v : value) (parts : list string) (rawVal : string) (i : nat) (fld : field)
    (leftover : list string) (n : string) (keyType valType : type)
    (m : option (gmap string value)) :
  landsOn fields parts i fld leftover ->
  leftover <> [] ->
  ftype fld = TMap n keyType valType ->
  kindOf keyType <> reflect.String ->
  Field v i = VMap m ->
  assignValue rt true (TStruct name fields) v parts rawVal
  = (withField v i (VMap (Some (default ∅ m))),
     Failed (ErrMapKeyType (kindOf keyType))).
Proof.
  intros Hl Hne Hft Hk Hfv. rewrite (landsOn_unfold _ _ _ _ _ _ _ _ _ _ Hl).
  unfold assignField. destruct leftover as [|s leftover]; [done|].
  rewrite Hft, Hfv, initIfNil_true, andThen_Nil.
  unfold setMapValue. rewrite bool_decide_eq_false_2 by done. simpl.
  by destruct m.
Qed.

(** The key [BYID_7] on [struct { ByID map[int]string }]. *)
Lemma assignValue_map_key_type_witness :
  let fields := [StructField "ByID" (TMap "" intT stringT)] in
  assignValue sampleRuntime true (TStruct "C" fields) (VStruct [VMap None])
    ["BYID"; "7"] "x"
  = (withField (VStruct [VMap None]) 0 (VMap (Some (default ∅ None))),
     Failed (ErrMapKeyType (kindOf intT))).
Proof.
  intros fields.
  apply (assignValue_map_key_type sampleRuntime "C" fields
           (VStruct [VMap None]) ["BYID"; "7"] "x" 0%nat
           (StructField "ByID" (TMap "" intT stringT)) ["7"] "" intT stringT
           None).
  - exists 1%nat. split; vm_compute; reflexivity.
  - discriminate.
  - reflexivity.
  - discriminate.
  - reflexivity.
Defined.

(** A value that does not coerce to the value type of the map: the
    error of the coercion is returned and no entry is stored, the
    entries there were stay. *)
Theorem assignValue_map_bad_value
    (rt : Runtime) (name : string) (fields : list field)
    (v : value) (parts : list string) (rawVal : string) (i : nat) (fld : field)
    (leftover : list string) (n : string) (keyType valType : type)
    (m : option (gmap string value)) (cv : value) (err : error) :
  landsOn fields parts i fld leftover ->
  leftover <> [] ->
  ftype fld = TMap n keyType valType ->
  kindOf keyType = reflect.String ->
  Field v i = VMap m ->
  mapElem rt valType rawVal = (cv, Failed err) ->
  assignValue rt true (TStruct name fields) v parts rawVal
  = (withField v i (VMap (Some (default ∅ m))), Failed err).
Proof.
  intros Hl Hne Hft Hk Hfv Hcv.
  rewrite (landsOn_unfold _ _ _ _ _ _ _ _ _ _ Hl).
  unfold assignField. destruct leftover as [|s leftover]; [done|].
  rewrite Hft, Hfv, initIfNil_true, andThen_Nil.
  unfold setMapValue. rewrite bool_decide_eq_true_2 by done. simpl.
  rewrite Hcv. by destruct m.
Qed.

(** The key [LIMITS_cpu] with the value [many] on
    [struct { Limits map[string]int }]. *)
Lemma assignValue_map_bad_value_witness :
  let fields := [StructField "Limits" (TMap "" stringT intT)] in
  assignValue sampleRuntime true (TStruct "C" fields) (VStruct [VMap None])
    ["LIMITS"; "cpu"] "many"
  = (withField (VStruct [VMap None]) 0 (VMap (Some (default ∅ None))),
     Failed (ErrCannotParse "many" "int" (ErrNum "ParseInt" "many" false))).
Proof.
  intros fields.
  apply (assignValue_map_bad_value sampleRuntime "C" fields
           (VStruct [VMap None]) ["LIMITS"; "cpu"] "many" 0%nat
           (StructField "Limits" (TMap "" stringT intT)) ["cpu"] "" stringT intT
           None (VInt 0)
           (ErrCannotParse "many" "int" (ErrNum "ParseInt" "many" false))).
  - exists 1%nat. split; vm_compute; reflexivity.
  - discriminate.
  - reflexivity.
  - reflexivity.
  - reflexivity.
  - vm_compute. reflexivity.
Defined.

(** ** Leaves: what [setBasicValue] writes to *)

(** [setBasicValue] ends with nil only on a type that is
    [time.Duration], of a scalar kind of its switch, or a pointer to
    such a type: nothing else is ever assigned as a leaf. *)
Theorem setBasicValue_Nil_leafType
    (rt : Runtime) (ft : type) (addr : bool) (fieldVal : value)
    (rawVal : string) :
  (setBasicValue rt addr ft fieldVal rawVal).2 = Nil ->
  leafType ft = true.
Proof.
  revert addr fieldVal.
  induction ft as [pkg n k|n elemT IH| | | | |n k]; intros addr fieldVal;
    simpl; try done.
  - destruct (_ && _); [done|]. simpl. by destruct k.
  - destruct (initIfNil _ _ _ _) as [fv []]; simpl; try done.
    destruct fv as [| | | | | |[e|]| | | | |]; try done.
    rewrite into_status. apply IH.
  - by destruct k.
Qed.

Lemma setBasicValue_Nil_leafType_witness :
  (setBasicValue sampleRuntime true (TPtr "" intT) (VPtr None) "42").2 = Nil
  /\ leafType (TPtr "" intT) = true.
Proof.
  assert ((setBasicValue sampleRuntime true (TPtr "" intT) (VPtr None) "42").2
          = Nil) as H by (vm_compute; reflexivity).
  split; [exact H|].
  apply (setBasicValue_Nil_leafType sampleRuntime (TPtr "" intT) true
           (VPtr None) "42" H).
Defined.

(** ** Slices: an index within the length, and a segment that is no
    index *)

(** A key that lands on a slice with an index below its length
    assigns in the element at that index: the slice keeps its length
    and its other elements. *)
Theorem assignValue_slice_in_range
    (rt : Runtime) (addr : bool) (name : string) (fields : list field)
    (v : value) (parts : list string) (rawVal : string) (i : nat) (fld : field)
    (idxStr : string) (rest : list string) (n : string) (elemT : type)
    (ix : Z) (elems : list value) (elemVal : value) :
  landsOn fields parts i fld (idxStr :: rest) ->
  ftype fld = TSlice n elemT ->
  Strconv.Atoi idxStr = inr ix ->
  0 <= ix ->
  Field v i = VSlice (Some elems) ->
  elems !! Z.to_nat ix = Some elemVal ->
  let r := assignElem rt (assignValue rt) fld elemT elemVal rest rawVal in
  assignValue rt addr (TStruct name fields) v parts rawVal
  = (withField v i (VSlice (Some (<[Z.to_nat ix := r.1]> elems))), r.2)
  /\ length (<[Z.to_nat ix := r.1]> elems) = length elems
  /\ forall j, j <> Z.to_nat ix ->
       <[Z.to_nat ix := r.1]> elems !! j = elems !! j.
Proof.
  intros Hl Hft Hix Hpos Hfv He r. split.
  - rewrite (landsOn_unfold _ _ _ _ _ _ _ _ _ _ Hl).
    unfold assignField. rewrite Hft, Hix, Hfv.
    unfold initIfNil. simpl IsNil. cbv iota. rewrite andThen_Nil.
    apply lookup_lt_Some in He as Hlt.
    rewrite growSlice_within by (simpl; lia). rewrite andThen_Nil.
    simpl elemsOf. destruct (ix <? 0) eqn:E; [lia|]. by rewrite He.
  - split; [apply length_insert|].
    intros j Hj. by apply list_lookup_insert_ne.
Qed.

(** The key [ITEMS_0] on a [configT] whose [Items] has two elements. *)
Lemma assignValue_slice_in_range_witness :
  let v := withField (zero configT) 1
             (VSlice (Some [VString "a"; VString "b"])) in
  let r := assignElem sampleRuntime (assignValue sampleRuntime)
             (StructField "Items" (TSlice "" stringT)) stringT (VString "a")
             [] "x" in
  assignValue sampleRuntime true configT v ["ITEMS"; "0"] "x"
  = (withField v 1
       (VSlice (Some (<[Z.to_nat 0 := r.1]> [VString "a"; VString "b"]))), r.2)
  /\ length (<[Z.to_nat 0 := r.1]> [VString "a"; VString "b"])
     = length [VString "a"; VString "b"]
  /\ forall j, j <> Z.to_nat 0 ->
       <[Z.to_nat 0 := r.1]> [VString "a"; VString "b"] !! j
       = [VString "a"; VString "b"] !! j.
Proof.
  intros v.
  apply (assignValue_slice_in_range sampleRuntime true "Config"
           [StructField "Host" stringT;
            StructField "Items" (TSlice "" stringT);
            StructField "Tags" (TMap "" stringT stringT);
            StructField "DB" (TPtr "" innerT);
            StructField "Timeout" DurationT;
            StructField "Nested" innerT;
            StructField "Inners" (TSlice "" innerT)]
           v ["ITEMS"; "0"] "x" 1%nat
           (StructField "Items" (TSlice "" stringT)) "0" [] "" stringT 0
           [VString "a"; VString "b"] (VString "a")).
  - exists 1%nat. split; vm_compute; reflexivity.
  - reflexivity.
  - vm_compute. reflexivity.
  - lia.
  - reflexivity.
  - reflexivity.
Defined.

(** A key that lands on a slice with a next segment [strconv.Atoi]
    rejects fails with the slice-index error, and the record is as it
    was: a nil slice stays nil. *)
Theorem assignValue_index_rejected
    (rt : Runtime) (addr : bool) (name : string) (fields : list field)
    (v : value) (parts : list string) (rawVal : string) (i : nat) (fld : field)
    (idxStr : string) (rest : list string) (n : string) (elemT : type)
    (e : error) :
  landsOn fields parts i fld (idxStr :: rest) ->
  ftype fld = TSlice n elemT ->
  Strconv.Atoi idxStr = inl e ->
  assignValue rt addr (TStruct name fields) v parts rawVal
  = (v, Failed (ErrSliceIndex idxStr (fname fld))).
Proof.
  intros Hl Hft Hix. rewrite (landsOn_unfold _ _ _ _ _ _ _ _ _ _ Hl).
  rewrite (assignField_index_rejected rt _ addr fld n elemT _ _ _ _ e Hft Hix).
  unfold into. simpl. by rewrite withField_Field.
Qed.

(** The key [ITEMS_first] on a zero [configT]. *)
Lemma assignValue_index_rejected_witness :
  assignValue sampleRuntime true configT (zero configT) ["ITEMS"; "first"] "x"
  = (zero configT, Failed (ErrSliceIndex "first" "Items")).
Proof.
  apply (assignValue_index_rejected sampleRuntime true "Config"
           [StructField "Host" stringT;
            StructField "Items" (TSlice "" stringT);
            StructField "Tags" (TMap "" stringT stringT);
            StructField "DB" (TPtr "" innerT);
            StructField "Timeout" DurationT;
            StructField "Nested" innerT;
            StructField "Inners" (TSlice "" innerT)]
           (zero configT) ["ITEMS"; "first"] "x" 1%nat
           (StructField "Items" (TSlice "" stringT)) "first" [] "" stringT
           (ErrNum "Atoi" "first" false)).
  - exists 1%nat. split; vm_compute; reflexivity.
  - reflexivity.
  - vm_compute. reflexivity.
Defined.

(** ** The decode as a whole *)

(** A key that lands on no field of the record may be taken out of
    the flat map: the decode is the same without it. *)
Theorem rangeLoop_unknown_key
    (rt : Runtime) (name : string) (fields : list field) (elem : value)
    (before after : list (string * string)) (rawKey rawVal : string) :
  topField fields rawKey = None ->
  rangeLoop rt (before ++ (rawKey, rawVal) :: after) (TStruct name fields) elem
  = rangeLoop rt (before ++ after) (TStruct name fields) elem.
Proof.
  intros Hk. rewrite !rangeLoop_app.
  destruct (rangeLoop rt before _ elem) as [elem1 []]; try done.
  rewrite rangeLoop_cons.
  pose proof (step_no_field rt name fields (rawKey, rawVal) elem1 Hk) as H.
  simpl in H. by rewrite H.
Qed.

Lemma rangeLoop_unknown_key_witness :
  rangeLoop sampleRuntime ([("HOST", "h")] ++ ("COLOR", "red") :: [("ITEMS_0", "i")])
    configT (zero configT)
  = rangeLoop sampleRuntime ([("HOST", "h")] ++ [("ITEMS_0", "i")])
      configT (zero configT).
Proof.
  apply (rangeLoop_unknown_key sampleRuntime "Config"
           [StructField "Host" stringT;
            StructField "Items" (TSlice "" stringT);
            StructField "Tags" (TMap "" stringT stringT);
            StructField "DB" (TPtr "" innerT);
            StructField "Timeout" DurationT;
            StructField "Nested" innerT;
            StructField "Inners" (TSlice "" innerT)]
           (zero configT) [("HOST", "h")] [("ITEMS_0", "i")] "COLOR" "red").
  vm_compute. reflexivity.
Defined.

(** With an empty flat map [Unmarshal] returns nil and the
    destination as it was. *)
Theorem Unmarshal_empty_map
    (rt : Runtime) (range : gmap string string -> list (string * string))
    (data goType : string) (elemT : type) (elem : value) :
  rangeOrder range ->
  UnmarshalBytes rt data = inr ∅ ->
  kindOf elemT = reflect.Struct ->
  Unmarshal rt range data (AnyPtr goType elemT (Some elem))
  = (AnyPtr goType elemT (Some elem), Nil).
Proof.
  intros Hrange Hparse Hk. unfold Unmarshal. rewrite Hparse, Hk. simpl.
  specialize (Hrange ∅). rewrite map_to_list_empty in Hrange.
  apply Permutation_nil_r in Hrange. by rewrite Hrange.
Qed.

Lemma Unmarshal_empty_map_witness :
  Unmarshal sampleRuntime map_to_list ""
    (AnyPtr "*Config" configT (Some (zero configT)))
  = (AnyPtr "*Config" configT (Some (zero configT)), Nil).
Proof.
  apply (Unmarshal_empty_map sampleRuntime map_to_list "" "*Config" configT
           (zero configT)).
  - intros m. reflexivity.
  - reflexivity.
  - reflexivity.
Defined.

(** The checks of [Unmarshal] before the loop.  An error of the .env
    parser is returned as it is, whatever the destination; after a
    text that parses, a destination that is not a pointer, or is a nil
    pointer, or points to something that is not a record, gives an
    error.  In each case the destination is as it was and the
    iteration order plays no part. *)
Theorem Unmarshal_rejects
    (rt : Runtime) (range : gmap string string -> list (string * string))
    (data : string) (v : any) :
  match UnmarshalBytes rt data with
  | inl err => Unmarshal rt range data v = (v, Failed err)
  | inr _ =>
      match v with
      | AnyNil => Unmarshal rt range data v = (v, Failed (ErrNotPointer "<nil>"))
      | AnyOther goType | AnyPtr goType _ None =>
          Unmarshal rt range data v = (v, Failed (ErrNotPointer goType))
      | AnyPtr _ elemT (Some _) =>
          if bool_decide (kindOf elemT = reflect.Struct) then True
          else Unmarshal rt range data v
               = (v, Failed (ErrNotStruct (kindOf elemT)))
      end
  end.
Proof.
  unfold Unmarshal. destruct (UnmarshalBytes rt data); [done|].
  destruct v as [|goType elemT [elem|]|goType]; try done.
  by destruct (bool_decide _).
Qed.

(** ** Slice elements that cannot be entered *)





(** ** A coercion that fails *)

(** When [setBasicValue] does not end with nil on a type that is no
    pointer, the field holds what it held: a value that does not parse
    never replaces the old one. *)
Theorem setBasicValue_failure_keeps_value
    (rt : Runtime) (addr : bool) (ft : type) (fieldVal : value)
    (rawVal : string) :
  kindOf ft <> reflect.Pointer ->
  (setBasicValue rt addr ft fieldVal rawVal).2 <> Nil ->
  (setBasicValue rt addr ft fieldVal rawVal).1 = fieldVal.
Proof.
  intros Hk.
  assert (forall k cv,
    (setWithReflect addr k fieldVal cv).2 <> Nil ->
    (setWithReflect addr k fieldVal cv).1 = fieldVal) as Hset.
  { intros k cv. unfold setWithReflect. by destruct addr. }
  destruct ft as [pkg n k| | | | | |n k]; simpl in *; try done.
  - destruct (_ && _).
    + destruct (Time.ParseDuration _ _); [done|apply Hset].
    + destruct k; try done; try apply Hset;
        repeat case_match; try done; apply Hset.
  - destruct k; try done; try apply Hset;
      repeat case_match; try done; apply Hset.
Qed.

Lemma setBasicValue_failure_keeps_value_witness :
  (setBasicValue sampleRuntime true intT (VInt 7) "seven").1 = VInt 7.
Proof.
  apply (setBasicValue_failure_keeps_value sampleRuntime true intT (VInt 7)
           "seven").
  - discriminate.
  - vm_compute. discriminate.
Defined.

(** ** Integers: the width of the field *)

Lemma digitVal_range c :
  Strconv.isDigit c = true -> 0 <= Strconv.digitVal c <= 9.
Proof.
  unfold Strconv.isDigit, Strconv.digitVal. intros H.
  apply andb_prop in H as [H1 H2].
  apply N.leb_le in H1, H2. lia.
Qed.

Lemma uintLoop_bounds s maxVal : forall n r,
  0 <= n <= maxVal ->
  Strconv.uintLoop s maxVal n = Some (Some r) ->
  0 <= r <= maxVal.
Proof.
  induction s as [|c s IH]; intros n r Hn; simpl.
  - intros [= <-]. done.
  - destruct (Strconv.isDigit c) eqn:Hd; simpl; [|done].
    destruct (n >=? _); [done|].
    destruct (_ || _) eqn:Hor; [done|].
    apply orb_false_elim in Hor as [_ Hmax].
    apply IH. pose proof (digitVal_range c Hd). lia.
Qed.

Lemma ParseUint_range s bitSize u :
  0 < bitSize ->
  Strconv.ParseUint s bitSize = inr u ->
  0 <= u < 2 ^ bitSize.
Proof.
  intros Hb. unfold Strconv.ParseUint.
  destruct (String.eqb s ""); [done|].
  destruct (bitSize =? 0) eqn:E; [lia|].
  destruct (Strconv.uintLoop _ _ _) as [[r|]|] eqn:Hloop; try done.
  intros [= <-].
  apply uintLoop_bounds in Hloop; [lia|].
  assert (0 < 2 ^ bitSize) by (apply Z.pow_pos_nonneg; lia). lia.
Qed.

Lemma ParseInt_range s bitSize i :
  0 < bitSize ->
  Strconv.ParseInt s bitSize = inr i ->
  - 2 ^ (bitSize - 1) <= i < 2 ^ (bitSize - 1).
Proof.
  intros Hb. unfold Strconv.ParseInt.
  destruct s as [|c r]; [done|].
  destruct (bitSize =? 0) eqn:E; [lia|].
  destruct (Strconv.ParseUint _ _) as [[]|un] eqn:Hu; try done;
    try (by destruct range).
  apply ParseUint_range in Hu as [Hu0 _]; [|done].
  destruct (Ascii.eqb c "-"); simpl.
  - destruct (un >? _) eqn:Hc; [done|]. intros [= <-].
    assert (0 < 2 ^ (bitSize - 1)) by (apply Z.pow_pos_nonneg; lia). lia.
  - destruct (un >=? _) eqn:Hc; [done|]. intros [= <-]. lia.
Qed.

(** A signed integer field is assigned only a value of its width: an
    [int8] field gets a value from -128 to 127, and so on. *)
Theorem setBasicValue_int_range
    (rt : Runtime) (addr : bool) (ft : type) (fieldVal : value)
    (rawVal : string) (v' : value) :
  isDuration ft = false ->
  kindOf ft ∈ [reflect.Int; reflect.Int8; reflect.Int16; reflect.Int32;
               reflect.Int64] ->
  setBasicValue rt addr ft fieldVal rawVal = (v', Nil) ->
  exists i, v' = VInt i
    /\ - 2 ^ (Bits (kindOf ft) - 1) <= i < 2 ^ (Bits (kindOf ft) - 1).
Proof.
  intros Hd Hk.
  assert (forall k,
    k ∈ [reflect.Int; reflect.Int8; reflect.Int16; reflect.Int32;
         reflect.Int64] ->
    match Strconv.ParseInt rawVal (Bits k) with
    | inl err => (fieldVal, Failed (ErrCannotParse rawVal "int" err))
    | inr i => setWithReflect addr k fieldVal (VInt i)
    end = (v', Nil) ->
    exists i, v' = VInt i /\ - 2 ^ (Bits k - 1) <= i < 2 ^ (Bits k - 1)) as H.
  { intros k Hin. destruct (Strconv.ParseInt rawVal (Bits k)) as [|i] eqn:Hp;
      [done|].
    unfold setWithReflect. destruct addr; [|done]. intros [= <-].
    exists i. split; [done|]. apply (ParseInt_range rawVal); [|done].
    rewrite !elem_of_cons, elem_of_nil in Hin.
    by destruct Hin as [->|[->|[->|[->|[->|[]]]]]]. }
  rewrite !elem_of_cons, elem_of_nil in Hk.
  destruct ft as [pkg n k| | | | | |n k]; simpl in *;
    try (destruct Hk as [Hk|[Hk|[Hk|[Hk|[Hk|[]]]]]]; discriminate Hk).
  - rewrite Hd.
    destruct Hk as [->|[->|[->|[->|[->|[]]]]]]; apply H;
      rewrite !elem_of_cons; tauto.
  - destruct Hk as [->|[->|[->|[->|[->|[]]]]]]; apply H;
      rewrite !elem_of_cons; tauto.
Qed.

Lemma setBasicValue_int_range_witness :
  exists i, VInt (-128) = VInt i
    /\ - 2 ^ (Bits (kindOf (TBasic "" "int8" reflect.Int8)) - 1) <= i
       < 2 ^ (Bits (kindOf (TBasic "" "int8" reflect.Int8)) - 1).
Proof.
  apply (setBasicValue_int_range sampleRuntime true
           (TBasic "" "int8" reflect.Int8) (VInt 0) "-128" (VInt (-128))).
  - reflexivity.
  - simpl. rewrite !elem_of_cons. right. left. reflexivity.
  - vm_compute. reflexivity.
Defined.

(** An unsigned integer field is assigned only a value of its width,
    and never a negative one. *)
Theorem setBasicValue_uint_range
    (rt : Runtime) (addr : bool) (ft : type) (fieldVal : value)
    (rawVal : string) (v' : value) :
  kindOf ft ∈ [reflect.Uint; reflect.Uint8; reflect.Uint16; reflect.Uint32;
               reflect.Uint64] ->
  setBasicValue rt addr ft fieldVal rawVal = (v', Nil) ->
  exists u, v' = VUint u /\ 0 <= u < 2 ^ Bits (kindOf ft).
Proof.
  intros Hk.
  assert (isDuration ft = false) as Hd.
  { destruct ft as [pkg n k| | | | | |]; try done. simpl in *.
    rewrite !elem_of_cons, elem_of_nil in Hk.
    destruct Hk as [->|[->|[->|[->|[->|[]]]]]]; by rewrite andb_false_r. }
  assert (forall k,
    k ∈ [reflect.Uint; reflect.Uint8; reflect.Uint16; reflect.Uint32;
         reflect.Uint64] ->
    match Strconv.ParseUint rawVal (Bits k) with
    | inl err => (fieldVal, Failed (ErrCannotParse rawVal "uint" err))
    | inr u => setWithReflect addr k fieldVal (VUint u)
    end = (v', Nil) ->
    exists u, v' = VUint u /\ 0 <= u < 2 ^ Bits k) as H.
  { intros k Hin. destruct (Strconv.ParseUint rawVal (Bits k)) as [|u] eqn:Hp;
      [done|].
    unfold setWithReflect. destruct addr; [|done]. intros [= <-].
    exists u. split; [done|]. apply (ParseUint_range rawVal); [|done].
    rewrite !elem_of_cons, elem_of_nil in Hin.
    by destruct Hin as [->|[->|[->|[->|[->|[]]]]]]. }
  rewrite !elem_of_cons, elem_of_nil in Hk.
  destruct ft as [pkg n k| | | | | |n k]; simpl in *;
    try (destruct Hk as [Hk|[Hk|[Hk|[Hk|[Hk|[]]]]]]; discriminate Hk).
  - rewrite Hd.
    destruct Hk as [->|[->|[->|[->|[->|[]]]]]]; apply H;
      rewrite !elem_of_cons; tauto.
  - destruct Hk as [->|[->|[->|[->|[->|[]]]]]]; apply H;
      rewrite !elem_of_cons; tauto.
Qed.

Lemma setBasicValue_uint_range_witness :
  exists u, VUint 255 = VUint u
    /\ 0 <= u < 2 ^ Bits (kindOf (TBasic "" "uint8" reflect.Uint8)).
Proof.
  apply (setBasicValue_uint_range sampleRuntime true
           (TBasic "" "uint8" reflect.Uint8) (VUint 0) "255" (VUint 255)).
  - simpl. rewrite !elem_of_cons. right. left. reflexivity.
  - vm_compute. reflexivity.
Defined.

(** ** A negative index *)

(** A key that lands on a slice with a negative number where the
    index is expected does not end with an error value: the call
    panics at [fieldVal.Index(ix)], whatever the slice holds. *)
Theorem assignValue_negative_index
    (rt : Runtime) (name : string) (fields : list field)
    (v : value) (parts : list string) (rawVal : string) (i : nat) (fld : field)
    (idxStr : string) (rest : list string) (n : string) (elemT : type)
    (ix : Z) :
  landsOn fields parts i fld (idxStr :: rest) ->
  ftype fld = TSlice n elemT ->
  Strconv.Atoi idxStr = inr ix ->
  ix < 0 ->
  (assignValue rt true (TStruct name fields) v parts rawVal).2
  = Panic "reflect: slice index out of range".
Proof.
  intros Hl Hft Hix Hneg. rewrite (landsOn_unfold _ _ _ _ _ _ _ _ _ _ Hl).
  rewrite into_status.
  by apply (assignField_negative_index rt _ fld n elemT _ idxStr rest rawVal ix).
Qed.

(** The key [INNERS_-3_HOST] on a zero [configT]. *)
Lemma assignValue_negative_index_witness :
  (assignValue sampleRuntime true configT (zero configT)
     ["INNERS"; "-3"; "HOST"] "h").2
  = Panic "reflect: slice index out of range".
Proof.
  apply (assignValue_negative_index sampleRuntime "Config"
           [StructField "Host" stringT;
            StructField "Items" (TSlice "" stringT);
            StructField "Tags" (TMap "" stringT stringT);
            StructField "DB" (TPtr "" innerT);
            StructField "Timeout" DurationT;
            StructField "Nested" innerT;
            StructField "Inners" (TSlice "" innerT)]
           (zero configT) ["INNERS"; "-3"; "HOST"] "h" 6%nat
           (StructField "Inners" (TSlice "" innerT)) "-3" ["HOST"] "" innerT
           (-3)).
  - exists 1%nat. split; vm_compute; reflexivity.
  - reflexivity.
  - vm_compute. reflexivity.
  - lia.
Defined.

(** ** A record that is not addressable *)

(** On a value that is not addressable (a field of a record that was
    not reached through a pointer) [setBasicValue] never ends with nil
    and never writes, whatever the raw value, unless the field is a
    pointer: [setWithReflect] has no way to set it. *)
Theorem setBasicValue_not_addressable
    (rt : Runtime) (ft : type) (fieldVal : value) (rawVal : string) :
  kindOf ft <> reflect.Pointer ->
  (setBasicValue rt false ft fieldVal rawVal).1 = fieldVal
  /\ (setBasicValue rt false ft fieldVal rawVal).2 <> Nil.
Proof.
  intros Hk.
  destruct ft as [pkg n k| | | | | |n k]; simpl in *; try done.
  - destruct (_ && _).
    + by destruct (Time.ParseDuration _ _).
    + destruct k; try done; repeat case_match; done.
  - destruct k; try done; repeat case_match; done.
Qed.

Lemma setBasicValue_not_addressable_witness :
  (setBasicValue sampleRuntime false stringT (VString "old") "new").1
  = VString "old"
  /\ (setBasicValue sampleRuntime false stringT (VString "old") "new").2 <> Nil.
Proof.
  apply (setBasicValue_not_addressable sampleRuntime stringT (VString "old")
           "new").
  discriminate.
Defined.
